(** * Local chat history: session persistence and session-state logic

    A shallow embedding of the pure and storage-facing functions of
    [src/components/ChatApp.tsx] (with the data types of
    [src/components/types.ts]), and the properties of them that the
    specification states.

    Conventions of the embedding:
    - a JavaScript string is the list of its UTF-16 code units, so that
      [length] is the [.length] of the source and the ellipsis of
      [deriveTitle] is one unit;
    - a function of the source that can raise returns a [Completion];
    - the clock ([new Date().toISOString()]), the identifier generator
      ([uuid()]) and the outcome of each [localStorage.setItem] call are
      explicit arguments;
    - built-ins whose definition is outside the repository
      ([toLowerCase], [JSON.parse], [JSON.stringify]) are section
      variables. *)

From Stdlib Require Import String Ascii.
From Stdlib Require Import List NArith ZArith Bool Arith Lia Permutation.
Import ListNotations.

Set Implicit Arguments.

(* ================================================================== *)
(** ** JavaScript strings *)

Definition jsstring := list N.

(** An ASCII literal of the source, as code units. *)
Definition lit (s : string) : jsstring :=
  map N_of_ascii (list_ascii_of_string s).

Definition jseqb (a b : jsstring) : bool :=
  if list_eq_dec N.eq_dec a b then true else false.

(** Truthiness of a string value: [""] is falsy. *)
Definition truthy (s : jsstring) : bool :=
  match s with [] => false | _ :: _ => true end.

(** The class [\s] of regular expressions, which is also the set that
    [String.prototype.trim] strips: WhiteSpace and LineTerminator. *)
Definition isWhiteSpace (c : N) : bool :=
  existsb (N.eqb c)
    [9; 10; 11; 12; 13; 32; 160; 5760; 8232; 8233; 8239; 8287; 12288; 65279]%N
  || ((8192 <=? c)%N && (c <=? 8202)%N).

Fixpoint trimStart (s : jsstring) : jsstring :=
  match s with
  | [] => []
  | c :: r => if isWhiteSpace c then trimStart r else s
  end.

Fixpoint trimEnd (s : jsstring) : jsstring :=
  match s with
  | [] => []
  | c :: r =>
      match trimEnd r with
      | [] => if isWhiteSpace c then [] else [c]
      | r' => c :: r'
      end
  end.

Definition trim (s : jsstring) : jsstring := trimEnd (trimStart s).

Definition SPACE : N := 32%N.

(** [s.replace(/\s+/g, " ")]: every maximal run of white space becomes
    one space; the space is emitted at the last unit of the run. *)
Fixpoint collapseWhitespace (s : jsstring) : jsstring :=
  match s with
  | [] => []
  | c :: r =>
      if isWhiteSpace c then
        match r with
        | [] => [SPACE]
        | c' :: _ =>
            if isWhiteSpace c' then collapseWhitespace r
            else SPACE :: collapseWhitespace r
        end
      else c :: collapseWhitespace r
  end.

Fixpoint startsWith (needle s : jsstring) : bool :=
  match needle, s with
  | [], _ => true
  | _ :: _, [] => false
  | a :: n', b :: s' => N.eqb a b && startsWith n' s'
  end.

(** [s.includes(needle)]. *)
Fixpoint includes (s needle : jsstring) : bool :=
  startsWith needle s ||
  match s with
  | [] => false
  | _ :: r => includes r needle
  end.

(** [needle] occurs in [s] as a contiguous block. *)
Definition substring (needle s : jsstring) : Prop :=
  exists pre post, s = pre ++ needle ++ post.

(** [a.slice(-n)] on an array: the last [n] elements, all of them when
    there are fewer. *)
Definition slice_last {A} (n : nat) (l : list A) : list A :=
  skipn (length l - n) l.

(* ================================================================== *)
(** ** Exceptions *)

Inductive JsError : Type :=
| TypeError
| SyntaxError
| DOMException (name : jsstring)
| OtherError.

Inductive Completion (A : Type) : Type :=
| Normal (a : A)
| Thrown (e : JsError).

Arguments Normal {A} a.
Arguments Thrown {A} e.

Definition bind {A B} (c : Completion A) (k : A -> Completion B)
  : Completion B :=
  match c with
  | Normal a => k a
  | Thrown e => Thrown e
  end.

Notation "x <- c ;; k" := (bind c (fun x => k))
  (at level 61, c at next level, right associativity).

(** [xs.map(f)] where [f] may raise: the first exception aborts. *)
Fixpoint mapM {A B} (f : A -> Completion B) (xs : list A)
  : Completion (list B) :=
  match xs with
  | [] => Normal []
  | x :: r => y <- f x ;; ys <- mapM f r ;; Normal (y :: ys)
  end.

(* ================================================================== *)
(** ** Data model ([types.ts]) *)

(** [ChatRole] is the union ["user" | "assistant"]; it is erased at run
    time, where the code compares the field with the literal ["user"]
    and [sanitizeSessions] keeps any truthy role, so the field is a
    string here. *)
Definition ChatRole := jsstring.
Definition role_user : ChatRole := lit "user".
Definition role_assistant : ChatRole := lit "assistant".

Record ChatMessage : Type := mkMessage {
  msg_id : jsstring;
  msg_role : ChatRole;
  msg_content : jsstring;
  msg_createdAt : jsstring
}.

Record ChatSession : Type := mkSession {
  sess_id : jsstring;
  sess_title : jsstring;
  sess_messages : list ChatMessage;
  sess_createdAt : jsstring;
  sess_updatedAt : jsstring
}.

(** What [JSON.parse] hands to [sanitizeSessions]: any field may be
    missing ([None] is [undefined]), an entry of an array may be
    [null], and [messages] may fail to be an array. *)
Record RawMessage : Type := mkRawMessage {
  raw_msg_id : option jsstring;
  raw_msg_role : option jsstring;
  raw_msg_content : option jsstring;
  raw_msg_createdAt : option jsstring
}.

Record RawSession : Type := mkRawSession {
  raw_id : option jsstring;
  raw_title : option jsstring;
  raw_messages : option (list (option RawMessage));
  raw_createdAt : option jsstring;
  raw_updatedAt : option jsstring
}.

(** A well-typed value seen as parsed data. *)
Definition raw_of_message (m : ChatMessage) : option RawMessage :=
  Some (mkRawMessage (Some (msg_id m)) (Some (msg_role m))
          (Some (msg_content m)) (Some (msg_createdAt m))).

Definition raw_of_session (s : ChatSession) : option RawSession :=
  Some (mkRawSession (Some (sess_id s)) (Some (sess_title s))
          (Some (map raw_of_message (sess_messages s)))
          (Some (sess_createdAt s)) (Some (sess_updatedAt s))).

(* ================================================================== *)
(** ** Constants *)

Definition STORAGE_KEY : jsstring := lit "chatgpt-local-sessions-v1".
Definition ACTIVE_SESSION_KEY : jsstring := lit "chatgpt-local-active-session".
Definition MAX_SESSION_HISTORY : nat := 75.
Definition NEW_CHAT : jsstring := lit "New chat".
(** U+2026, the one-unit ellipsis appended by [deriveTitle]. *)
Definition ELLIPSIS : N := 8230%N.

(* ================================================================== *)
(** ** Title derivation *)

(** The tail of [deriveTitle], once the first user message is found. *)
Definition titleOfContent (content : jsstring) : jsstring :=
  let trimmed := collapseWhitespace (trim content) in
  if length trimmed <=? 45 then trimmed
  else firstn 45 trimmed ++ [ELLIPSIS].

Definition deriveTitle (messages : list ChatMessage) : jsstring :=
  match find (fun message => jseqb (msg_role message) role_user) messages with
  | None => NEW_CHAT
  | Some firstUser => titleOfContent (msg_content firstUser)
  end.

(** [messages.find(m => m.role === "user")] on parsed data: reading
    [.role] of a [null] entry raises. *)
Fixpoint findFirstUser_raw (messages : list (option RawMessage))
  : Completion (option RawMessage) :=
  match messages with
  | [] => Normal None
  | None :: _ => Thrown TypeError
  | Some message :: r =>
      match raw_msg_role message with
      | Some role =>
          if jseqb role role_user then Normal (Some message)
          else findFirstUser_raw r
      | None => findFirstUser_raw r
      end
  end.

(** [deriveTitle] as it runs inside [sanitizeSessions], on messages not
    yet filtered: [firstUser.content.trim()] raises when the content is
    missing. *)
Definition deriveTitle_raw (messages : list (option RawMessage))
  : Completion jsstring :=
  firstUser <- findFirstUser_raw messages ;;
  match firstUser with
  | None => Normal NEW_CHAT
  | Some m =>
      match raw_msg_content m with
      | None => Thrown TypeError
      | Some content => Normal (titleOfContent content)
      end
  end.

(* ================================================================== *)
(** ** Session construction *)

(** [createEmptySession()], given the identifier [uuid()] returns and
    the current time. *)
Definition createEmptySession (uuid now : jsstring) : ChatSession :=
  {| sess_id := uuid;
     sess_title := NEW_CHAT;
     sess_messages := [];
     sess_createdAt := now;
     sess_updatedAt := now |}.

Definition createMessage (uuid now : jsstring) (role : ChatRole)
  (content : jsstring) : ChatMessage :=
  {| msg_id := uuid;
     msg_role := role;
     msg_content := trimEnd content;
     msg_createdAt := now |}.

(* ================================================================== *)
(** ** Sanitizer and capacity manager *)

(** [a || d] on an optional string: [undefined] and [""] are falsy. *)
Definition orElse (a : option jsstring) (d : jsstring) : jsstring :=
  match a with
  | Some s => if truthy s then s else d
  | None => d
  end.

(** [xs.filter(p).map(f)] fused: [f x = None] when [p] rejects [x]. *)
Fixpoint filterMap {A B} (f : A -> option B) (xs : list A) : list B :=
  match xs with
  | [] => []
  | x :: r =>
      match f x with
      | Some y => y :: filterMap f r
      | None => filterMap f r
      end
  end.

(** The filter predicate on messages:
    [message && message.id && message.role && message.content !== undefined]. *)
Definition keepsMessage (m : option RawMessage) : bool :=
  match m with
  | None => false
  | Some m =>
      match raw_msg_id m, raw_msg_role m, raw_msg_content m with
      | Some id, Some role, Some _ => truthy id && truthy role
      | _, _, _ => false
      end
  end.

(** One message through the inner [.filter(...).map(...)]: dropped when
    [keepsMessage] fails, else copied with [createdAt] defaulted. *)
Definition sanitizeMessage (now : jsstring) (m : option RawMessage)
  : option ChatMessage :=
  match m with
  | None => None
  | Some m =>
      match raw_msg_id m, raw_msg_role m, raw_msg_content m with
      | Some id, Some role, Some content =>
          if truthy id && truthy role then
            Some {| msg_id := id;
                    msg_role := role;
                    msg_content := content;
                    msg_createdAt := orElse (raw_msg_createdAt m) now |}
          else None
      | _, _, _ => None
      end
  end.

(** The filter predicate on sessions:
    [session && session.id && Array.isArray(session.messages)]. *)
Definition keepsSession (s : option RawSession) : bool :=
  match s with
  | None => false
  | Some s =>
      match raw_id s, raw_messages s with
      | Some id, Some _ => truthy id
      | _, _ => false
      end
  end.

(** One session through the outer [.filter(...).map(...)]: [None] when
    the filter drops it; the title is computed first and is the only
    part that can raise ([deriveTitle] reads the unfiltered messages). *)
Definition sanitizeSession (now : jsstring) (s : option RawSession)
  : option (Completion ChatSession) :=
  match s with
  | None => None
  | Some s =>
      match raw_id s, raw_messages s with
      | Some id, Some msgs =>
          if truthy id then
            Some (title <- match raw_title s with
                           | Some t =>
                               if truthy t then Normal t
                               else deriveTitle_raw msgs
                           | None => deriveTitle_raw msgs
                           end ;;
                  Normal {| sess_id := id;
                            sess_title := title;
                            sess_messages := filterMap (sanitizeMessage now) msgs;
                            sess_createdAt := orElse (raw_createdAt s) now;
                            sess_updatedAt :=
                              orElse (raw_updatedAt s)
                                (orElse (raw_createdAt s) now) |})
          else None
      | _, _ => None
      end
  end.

Definition sanitizeSessions (now : jsstring)
  (sessions : list (option RawSession)) : Completion (list ChatSession) :=
  mapM (fun c => c) (filterMap (sanitizeSession now) sessions).

Definition truncateMessages (session : ChatSession) : ChatSession :=
  {| sess_id := sess_id session;
     sess_title := sess_title session;
     sess_messages := slice_last 200 (sess_messages session);
     sess_createdAt := sess_createdAt session;
     sess_updatedAt := sess_updatedAt session |}.

Definition ensureCapacity (sessions : list ChatSession) : list ChatSession :=
  if length sessions <=? MAX_SESSION_HISTORY then sessions
  else map truncateMessages (slice_last MAX_SESSION_HISTORY sessions).

(** Order of ISO-8601 time stamps: the order of JavaScript strings,
    lexicographic on code units (as in [a.updatedAt > b.updatedAt]). *)
Fixpoint jsltb (a b : jsstring) : bool :=
  match a, b with
  | _, [] => false
  | [], _ :: _ => true
  | x :: a', y :: b' => (x <? y)%N || ((x =? y)%N && jsltb a' b')
  end.

(** The collection is ordered newest-created first: every session was
    created strictly after all the sessions behind it. *)
Fixpoint newest_first (sessions : list ChatSession) : bool :=
  match sessions with
  | [] => true
  | s :: r =>
      forallb (fun o => jsltb (sess_createdAt o) (sess_createdAt s)) r
      && newest_first r
  end.

(* ================================================================== *)
(** ** Storage adapter *)

(** [window.localStorage]: keys with their values. *)
Definition Storage := list (jsstring * jsstring).

Fixpoint getItem (key : jsstring) (st : Storage) : option jsstring :=
  match st with
  | [] => None
  | (k, v) :: r => if jseqb k key then Some v else getItem key r
  end.

Definition removeItem (key : jsstring) (st : Storage) : Storage :=
  filter (fun kv => negb (jseqb (fst kv) key)) st.

Definition setItem (key value : jsstring) (st : Storage) : Storage :=
  (key, value) :: removeItem key st.

(** The browser environment the adapter touches; [console] collects the
    messages of [console.warn]. The [window] argument of the functions
    below is [None] when [typeof window === "undefined"]. *)
Record Env : Type := mkEnv {
  localStorage : Storage;
  console : list jsstring
}.

Definition warn (msg : jsstring) (env : Env) : Env :=
  {| localStorage := localStorage env; console := console env ++ [msg] |}.

Definition store (key value : jsstring) (env : Env) : Env :=
  {| localStorage := setItem key value (localStorage env);
     console := console env |}.

Definition isQuotaError (error : JsError) : bool :=
  match error with
  | DOMException name =>
      jseqb name (lit "QuotaExceededError")
      || jseqb name (lit "NS_ERROR_DOM_QUOTA_REACHED")
  | _ => false
  end.

(** The value [JSON.parse] returns, seen through the cast
    [as ChatSession[]]: an array of entries, or anything else. *)
Inductive Parsed : Type :=
| ParsedArray (entries : list (option RawSession))
| ParsedOther.

(** The run of one [persistToStorage] call: the environment it leaves
    and the payloads it passed to [setItem], in order. *)
Record PersistRun : Type := mkRun {
  run_env : option Env;
  run_attempts : list (list ChatSession)
}.

Record AppState : Type := mkState {
  sessions : list ChatSession;
  activeSessionId : option jsstring;
  searchTerm : jsstring
}.

Section Operations.

(** [JSON.parse]: raises [SyntaxError] on malformed text. *)
Variable JSON_parse : jsstring -> Completion Parsed.
Variable JSON_stringify : list ChatSession -> jsstring.
Variable toLowerCase : jsstring -> jsstring.

(** [sanitizeSessions(parsed)]: calling [.filter] on a value that is
    not an array raises. *)
Definition sanitizeParsed (now : jsstring) (parsed : Parsed)
  : Completion (list ChatSession) :=
  match parsed with
  | ParsedArray entries => sanitizeSessions now entries
  | ParsedOther => Thrown TypeError
  end.

Definition readFromStorage (now : jsstring) (window : option Env)
  : list ChatSession * option Env :=
  match window with
  | None => ([], None)
  | Some env =>
      match getItem STORAGE_KEY (localStorage env) with
      | None => ([], window)
      | Some raw =>
          if truthy raw then
            match parsed <- JSON_parse raw ;; sanitizeParsed now parsed with
            | Normal result => (result, window)
            | Thrown _ =>
                ([], Some (warn (lit "Failed to read chat sessions from storage") env))
            end
          else ([], window)
      end
  end.

(** The [while (payload.length)] loop. [outcomes k] is what the
    [k]-th [setItem] call of the run does: return, or raise. A failed
    [setItem] leaves the store as it was. *)
Fixpoint persistLoop (outcomes : nat -> Completion unit) (k : nat)
  (payload : list ChatSession) (env : Env) : Env * list (list ChatSession) :=
  match payload with
  | [] => (env, [])
  | _ :: rest =>
      match outcomes k with
      | Normal _ =>
          (store STORAGE_KEY (JSON_stringify payload) env, [payload])
      | Thrown error =>
          if isQuotaError error then
            let (env', attempts) := persistLoop outcomes (S k) rest env in
            (env', payload :: attempts)
          else (warn (lit "Failed to write chat sessions") env, [payload])
      end
  end.

Definition persistToStorage (outcomes : nat -> Completion unit)
  (sessions : list ChatSession) (window : option Env) : PersistRun :=
  match window with
  | None => {| run_env := None; run_attempts := [] |}
  | Some env =>
      let (env', attempts) :=
        persistLoop outcomes 0 (ensureCapacity sessions) env in
      {| run_env := Some env'; run_attempts := attempts |}
  end.

(** [writeActiveSession(sessionId)]; [outcome] is what its [setItem]
    call does. *)
Definition writeActiveSession (outcome : Completion unit)
  (sessionId : option jsstring) (window : option Env) : option Env :=
  match window with
  | None => None
  | Some env =>
      match sessionId with
      | Some id =>
          if truthy id then
            match outcome with
            | Normal _ => Some (store ACTIVE_SESSION_KEY id env)
            | Thrown _ =>
                Some (warn (lit "Failed to persist active session id") env)
            end
          else Some {| localStorage := removeItem ACTIVE_SESSION_KEY (localStorage env);
                       console := console env |}
      | None => Some {| localStorage := removeItem ACTIVE_SESSION_KEY (localStorage env);
                        console := console env |}
      end
  end.

Definition readActiveSession (window : option Env) : option jsstring :=
  match window with
  | None => None
  | Some env => getItem ACTIVE_SESSION_KEY (localStorage env)
  end.

(* ================================================================ *)
(** ** Session state controller *)

(** The predicate of the [filter] in [filteredSessions]. *)
Definition matchesNeedle (needle : jsstring) (session : ChatSession) : bool :=
  includes (toLowerCase (sess_title session)) needle
  || existsb (fun message => includes (toLowerCase (msg_content message)) needle)
       (sess_messages session).

Definition filteredSessions (st : AppState) : list ChatSession :=
  if negb (truthy (trim (searchTerm st))) then sessions st
  else
    let needle := toLowerCase (searchTerm st) in
    filter (matchesNeedle needle) (sessions st).

(** [handleNewChat]: the session part of the state after the updater
    [prev => [newSession, ...prev]] and [selectSession]. *)
Definition handleNewChat (uuid now : jsstring) (outcome : Completion unit)
  (st : AppState) (window : option Env) : AppState * option Env :=
  let newSession := createEmptySession uuid now in
  ({| sessions := newSession :: sessions st;
      activeSessionId := Some (sess_id newSession);
      searchTerm := searchTerm st |},
   writeActiveSession outcome (Some (sess_id newSession)) window).

(** [handleDeleteSession(sessionId)]: the state updater applied to the
    current collection, with the active identifier of the state. *)
Definition handleDeleteSession (uuid now : jsstring) (outcome : Completion unit)
  (sessionId : jsstring) (st : AppState) (window : option Env)
  : AppState * option Env :=
  let remaining :=
    filter (fun session => negb (jseqb (sess_id session) sessionId))
      (sessions st) in
  match remaining with
  | [] =>
      let fallback := createEmptySession uuid now in
      ({| sessions := [fallback];
          activeSessionId := Some (sess_id fallback);
          searchTerm := searchTerm st |},
       writeActiveSession outcome (Some (sess_id fallback)) window)
  | first :: _ =>
      match activeSessionId st with
      | Some active =>
          if jseqb active sessionId then
            ({| sessions := remaining;
                activeSessionId := Some (sess_id first);
                searchTerm := searchTerm st |},
             writeActiveSession outcome (Some (sess_id first)) window)
          else
            ({| sessions := remaining;
                activeSessionId := activeSessionId st;
                searchTerm := searchTerm st |}, window)
      | None =>
          ({| sessions := remaining;
              activeSessionId := activeSessionId st;
              searchTerm := searchTerm st |}, window)
      end
  end.

(** The function that [updateSessionMessages] maps over the
    collection. *)
Definition updateOne (now sessionId : jsstring)
  (updater : list ChatMessage -> list ChatMessage) (session : ChatSession)
  : ChatSession :=
  if negb (jseqb (sess_id session) sessionId) then session
  else
    let nextMessages := updater (sess_messages session) in
    {| sess_id := sess_id session;
       sess_title := deriveTitle nextMessages;
       sess_messages := nextMessages;
       sess_createdAt := sess_createdAt session;
       sess_updatedAt := now |}.

Definition updateSessionMessages (now sessionId : jsstring)
  (updater : list ChatMessage -> list ChatMessage) (st : AppState)
  : AppState :=
  {| sessions := map (updateOne now sessionId updater) (sessions st);
     activeSessionId := activeSessionId st;
     searchTerm := searchTerm st |}.

(** The updater [messages => [...messages, message]] of [handleSend]. *)
Definition appendMessage (now sessionId : jsstring) (message : ChatMessage)
  (st : AppState) : AppState :=
  updateSessionMessages now sessionId
    (fun messages => messages ++ [message]) st.

End Operations.

(* ================================================================== *)
(** ** Sample data *)

Definition digit (d : nat) : N := (48 + N.of_nat d)%N.

Definition two_digits (n : nat) : jsstring :=
  [digit (n / 10); digit (n mod 10)].

(** The [i]-th minute of a fixed day, as an ISO-8601 time stamp. *)
Definition stamp (i : nat) : jsstring :=
  lit "2026-01-01T" ++ two_digits (i / 60) ++ lit ":"
  ++ two_digits (i mod 60) ++ lit ":00.000Z".

(** The state after [n] clicks on "New chat", one per minute, starting
    from the empty collection; the [k]-th click draws the identifier
    [s<k>]. *)
Fixpoint newChats (n : nat) : AppState :=
  match n with
  | 0 => {| sessions := []; activeSessionId := None; searchTerm := [] |}
  | S k =>
      fst (handleNewChat (lit "s" ++ two_digits k) (stamp k)
             (Normal tt) (newChats k) None)
  end.

Definition sessions76 : list ChatSession := sessions (newChats 76).

(** One session holding [n] assistant messages. *)
Definition longSession (n : nat) : ChatSession :=
  {| sess_id := lit "long";
     sess_title := NEW_CHAT;
     sess_messages :=
       map (fun i => createMessage (lit "m" ++ two_digits (i mod 100))
                       (stamp 0) role_assistant (lit "ok"))
           (seq 0 n);
     sess_createdAt := stamp 0;
     sess_updatedAt := stamp 0 |}.

(* ================================================================== *)
(** ** Vocabulary of the specification, with more sample data *)

(** The sequence holds no message of role [user]. *)
Definition noUser (M : list ChatMessage) : Prop :=
  forall m, In m M -> msg_role m <> role_user.

(** [m] is the first message of role [user] in [M]. *)
Definition firstUser (M : list ChatMessage) (m : ChatMessage) : Prop :=
  exists pre post,
    M = pre ++ m :: post /\ noUser pre /\ msg_role m = role_user.

(** A message sequence whose only user message reads "New chat". *)
Definition saysNewChat : list ChatMessage :=
  [createMessage (lit "m1") (stamp 0) role_user (lit "New chat")].

(** A stored collection, well formed for [ChatSession[]], whose only
    session has an empty title and a single user message of blanks. *)
Definition blankSessions : list ChatSession :=
  [ {| sess_id := lit "s1";
       sess_title := [];
       sess_messages :=
         [ {| msg_id := lit "m1"; msg_role := role_user;
              msg_content := lit "   "; msg_createdAt := stamp 0 |} ];
       sess_createdAt := stamp 0;
       sess_updatedAt := stamp 0 |} ].

(** A stored collection, well formed for [ChatSession[]]: one session
    with an empty title, whose first user message has an empty
    identifier and a blank content, followed by a valid user message. *)
Definition staleSessions : list ChatSession :=
  [ {| sess_id := lit "s1";
       sess_title := [];
       sess_messages :=
         [ {| msg_id := []; msg_role := role_user;
              msg_content := lit " "; msg_createdAt := stamp 0 |};
           {| msg_id := lit "m2"; msg_role := role_user;
              msg_content := lit "Hello"; msg_createdAt := stamp 0 |} ];
       sess_createdAt := stamp 0;
       sess_updatedAt := stamp 0 |} ].

(** [sanitize(sanitize(S))]: the sessions of the first pass are the
    input of the second. *)
Definition sanitizeTwice (now : jsstring) (raw : list (option RawSession))
  : Completion (list ChatSession) :=
  once <- sanitizeSessions now raw ;;
  sanitizeSessions now (map raw_of_session once).

(** The text held by the sessions slot, if the store is reachable and
    the slot is present. *)
Definition storedText (window : option Env) : option jsstring :=
  match window with
  | None => None
  | Some env => getItem STORAGE_KEY (localStorage env)
  end.

(** A store whose sessions slot holds [text]. *)
Definition windowWith (text : jsstring) : option Env :=
  Some {| localStorage := [(STORAGE_KEY, text)]; console := [] |}.

Definition emptyWindow : option Env :=
  Some {| localStorage := []; console := [] |}.

(** A quoted JSON string. *)
Definition quoted (s : string) : jsstring := [34%N] ++ lit s ++ [34%N].

(** Three JSON texts: a list with one session without messages, a list
    whose session has a [null] message and no title, and an object. *)
Definition textOneSession : jsstring :=
  lit "[{" ++ quoted "id" ++ lit ":" ++ quoted "a" ++ lit ","
  ++ quoted "messages" ++ lit ":[]}]".

Definition textNullMessage : jsstring :=
  lit "[{" ++ quoted "id" ++ lit ":" ++ quoted "a" ++ lit ","
  ++ quoted "messages" ++ lit ":[null]}]".

Definition textObject : jsstring := lit "{}".

Definition rawOneSession (messages : list (option RawMessage))
  : list (option RawSession) :=
  [ Some {| raw_id := Some (lit "a"); raw_title := None;
            raw_messages := Some messages;
            raw_createdAt := None; raw_updatedAt := None |} ].

(** [JSON.parse] restricted to the three texts above; any other text,
    the empty one included, is rejected. *)
Definition parseSample (text : jsstring) : Completion Parsed :=
  if jseqb text textOneSession then Normal (ParsedArray (rawOneSession []))
  else if jseqb text textNullMessage then
    Normal (ParsedArray (rawOneSession [None]))
  else if jseqb text textObject then Normal ParsedOther
  else Thrown SyntaxError.

(** The [setItem] call raised an error that [isQuotaError] accepts. *)
Definition quotaFailure (outcome : Completion unit) : Prop :=
  exists e, outcome = Thrown e /\ isQuotaError e = true.

Definition quotaExceeded : Completion unit :=
  Thrown (DOMException (lit "QuotaExceededError")).

(** [JSON.stringify] replaced by a text that records the identifiers
    only; enough to tell payloads apart in the examples. *)
Definition stringifyIds (payload : list ChatSession) : jsstring :=
  concat (map (fun s => sess_id s ++ lit ",") payload).

(** Write outcomes: the first two calls hit the quota, then [last]. *)
Definition twoQuotaThen (last : Completion unit) (k : nat) : Completion unit :=
  match k with
  | 0 | 1 => quotaExceeded
  | _ => last
  end.

(** The term is empty or made of white space only. *)
Definition blank (term : jsstring) : Prop :=
  Forall (fun c => isWhiteSpace c = true) term.

(** The lowercased term occurs in the lowercased title of the session
    or in the lowercased content of one of its messages. *)
Definition matchesTerm (toLowerCase : jsstring -> jsstring)
  (term : jsstring) (session : ChatSession) : Prop :=
  substring (toLowerCase term) (toLowerCase (sess_title session))
  \/ exists message,
       In message (sess_messages session)
       /\ substring (toLowerCase term) (toLowerCase (msg_content message)).

(** Lowercasing restricted to the letters A-Z. *)
Definition lowerAscii (s : jsstring) : jsstring :=
  map (fun c => if ((65 <=? c) && (c <=? 90))%N then (c + 32)%N else c) s.

(** Three chats, the newest titled after its first message. *)
Definition threeChats : list ChatSession :=
  sessions
    (appendMessage (stamp 3) (lit "s02")
       (createMessage (lit "m1") (stamp 3) role_user (lit "Hello World"))
       (newChats 3)).

Definition searching (term : jsstring) : AppState :=
  {| sessions := threeChats; activeSessionId := None; searchTerm := term |}.

(** The sessions of the collection whose identifier is not [sessionId],
    in the order of the collection. *)
Definition others (sessionId : jsstring) (collection : list ChatSession)
  : list ChatSession :=
  filter (fun session => negb (jseqb (sess_id session) sessionId)) collection.

(** Three chats with the newest one active. *)
Definition threeChatsActive (active : string) : AppState :=
  {| sessions := threeChats; activeSessionId := Some (lit active);
     searchTerm := [] |}.

(* ================================================================== *)
(** ** Further functions of [ChatApp.tsx] *)

(** [parts.join(sep)]. *)
Fixpoint joinWith (sep : jsstring) (parts : list jsstring) : jsstring :=
  match parts with
  | [] => []
  | [p] => p
  | p :: rest => p ++ sep ++ joinWith sep rest
  end.

Definition NEWLINE : jsstring := [10%N].

Definition simulateAssistantResponse (prompt : jsstring) : jsstring :=
  let trimmed := trim prompt in
  if negb (truthy trimmed) then lit "I'm ready whenever you are!"
  else
    joinWith NEWLINE
      [ lit "Here's a quick reflection on your last message:";
        lit "> " ++ trimmed;
        [];
        lit "This demo mirrors the ChatGPT interface with fully local chat history. Feel free to keep exploring or start a new conversation!" ].

(** The memo [activeSession]:
    [sessions.find(session => session.id === activeSessionId) || null]. *)
Definition activeSession (st : AppState) : option ChatSession :=
  match activeSessionId st with
  | None => None
  | Some active =>
      find (fun session => jseqb (sess_id session) active) (sessions st)
  end.

(** The component state that [handleSend] and the reply timer touch
    besides the sessions: the text of the input box, the two flags, and
    the pending timer of [typingTimeoutRef] with the two values its
    callback closes over (the session identifier and the trimmed
    text). *)
Record Composer : Type := mkComposer {
  appState : AppState;
  inputValue : jsstring;
  isTyping : bool;
  emojiOpen : bool;
  pendingReply : option (jsstring * jsstring)
}.

(** The clock readings and identifiers one [handleSend] call draws:
    [createEmptySession] (when it runs), [createMessage], and the
    [updatedAt] of the updater. *)
Record SendDraws : Type := mkDraws {
  draw_sessionId : jsstring;
  draw_sessionTime : jsstring;
  draw_messageId : jsstring;
  draw_messageTime : jsstring;
  draw_updateTime : jsstring
}.

(** [selectSession(sessionId)], without the sidebar flag and the focus. *)
Definition selectSession (outcome : Completion unit) (sessionId : jsstring)
  (st : AppState) (window : option Env) : AppState * option Env :=
  ({| sessions := sessions st;
      activeSessionId := Some sessionId;
      searchTerm := searchTerm st |},
   writeActiveSession outcome (Some sessionId) window).

(** [handleSearchChange(value)]. *)
Definition handleSearchChange (value : jsstring) (st : AppState) : AppState :=
  {| sessions := sessions st;
     activeSessionId := activeSessionId st;
     searchTerm := value |}.

(** [handleSend()]: the state updates it queues, applied in order, and
    the timer it arms. [!sessionId] holds for [null] and for [""]. *)
Definition handleSend (d : SendDraws) (outcome : Completion unit)
  (ui : Composer) (window : option Env) : Composer * option Env :=
  let value := trim (inputValue ui) in
  if negb (truthy value) then (ui, window)
  else
    let st := appState ui in
    let fresh :=
      let newSession :=
        createEmptySession (draw_sessionId d) (draw_sessionTime d) in
      (sess_id newSession,
       {| sessions := newSession :: sessions st;
          activeSessionId := Some (sess_id newSession);
          searchTerm := searchTerm st |},
       writeActiveSession outcome (Some (sess_id newSession)) window) in
    let '(sessionId, st1, window1) :=
      match activeSessionId st with
      | Some active => if truthy active then (active, st, window) else fresh
      | None => fresh
      end in
    let userMessage :=
      createMessage (draw_messageId d) (draw_messageTime d) role_user value in
    ({| appState := appendMessage (draw_updateTime d) sessionId userMessage st1;
        inputValue := [];
        isTyping := true;
        emojiOpen := false;
        pendingReply := Some (sessionId, value) |},
     window1).

(** The callback of the timer armed by [handleSend], when it fires. *)
Definition deliverReply (uuid nowMessage nowUpdate : jsstring)
  (ui : Composer) : Composer :=
  match pendingReply ui with
  | None => ui
  | Some (sessionId, value) =>
      let assistantMessage :=
        createMessage uuid nowMessage role_assistant
          (simulateAssistantResponse value) in
      {| appState := appendMessage nowUpdate sessionId assistantMessage (appState ui);
         inputValue := inputValue ui;
         isTyping := false;
         emojiOpen := emojiOpen ui;
         pendingReply := None |}
  end.

(** The comparator [(a, b) => (a.updatedAt > b.updatedAt ? -1 : 1)]. *)
Definition byUpdatedDesc (a b : ChatSession) : Z :=
  if jsltb (sess_updatedAt b) (sess_updatedAt a) then (-1)%Z else 1%Z.

(** A storage event, as far as the listener reads it: whether
    [event.storageArea] is [window.localStorage], and [event.key]. *)
Record StorageEvent : Type := mkEvent {
  event_isLocal : bool;
  event_key : option jsstring
}.

Definition keyIs (key : option jsstring) (name : jsstring) : bool :=
  match key with
  | Some k => jseqb k name
  | None => false
  end.

Section Lifecycle.

Variable JSON_parse : jsstring -> Completion Parsed.
(** [[...xs].sort(compare)]. *)
Variable sortCopy :
  (ChatSession -> ChatSession -> Z) -> list ChatSession -> list ChatSession.

(** [initialiseSessions()]; [now] is the clock of the sanitizer. *)
Definition initialiseSessions (uuid nowSession now : jsstring)
  (outcome : Completion unit) (st : AppState) (window : option Env)
  : AppState * option Env :=
  let (storedSessions, window1) := readFromStorage JSON_parse now window in
  match storedSessions with
  | [] =>
      let freshSession := createEmptySession uuid nowSession in
      ({| sessions := [freshSession];
          activeSessionId := Some (sess_id freshSession);
          searchTerm := searchTerm st |},
       writeActiveSession outcome (Some (sess_id freshSession)) window1)
  | first :: _ =>
      let fallback :=
        let latestId :=
          match sortCopy byUpdatedDesc storedSessions with
          | latestSession :: _ => sess_id latestSession
          | [] => sess_id first
          end in
        ({| sessions := storedSessions;
            activeSessionId := Some latestId;
            searchTerm := searchTerm st |},
         writeActiveSession outcome (Some latestId) window1) in
      match readActiveSession window1 with
      | Some storedActiveId =>
          if truthy storedActiveId
             && existsb (fun session => jseqb (sess_id session) storedActiveId)
                  storedSessions
          then ({| sessions := storedSessions;
                   activeSessionId := Some storedActiveId;
                   searchTerm := searchTerm st |}, window1)
          else fallback
      | None => fallback
      end
  end.

(** The listener of ["storage"] events. *)
Definition handleStorageEvent (now : jsstring) (event : StorageEvent)
  (st : AppState) (window : option Env) : AppState * option Env :=
  if negb (event_isLocal event) then (st, window)
  else
    let (st1, window1) :=
      if keyIs (event_key event) STORAGE_KEY then
        let (updatedSessions, w) := readFromStorage JSON_parse now window in
        ({| sessions := updatedSessions;
            activeSessionId := activeSessionId st;
            searchTerm := searchTerm st |}, w)
      else (st, window) in
    if keyIs (event_key event) ACTIVE_SESSION_KEY then
      match readActiveSession window1 with
      | Some newActiveId =>
          if truthy newActiveId then
            ({| sessions := sessions st1;
                activeSessionId := Some newActiveId;
                searchTerm := searchTerm st1 |}, window1)
          else (st1, window1)
      | None => (st1, window1)
      end
    else (st1, window1).

End Lifecycle.

(** [Math.round(p / q)] for integers [p] and [q > 0]: the quotient
    rounded to the nearest integer, halves towards plus infinity. *)
Definition roundDiv (p q : Z) : Z := ((2 * p + q) / (2 * q))%Z.

Fixpoint decimalDigits (fuel n : nat) (acc : jsstring) : jsstring :=
  match fuel with
  | 0 => acc
  | S f =>
      let acc' := digit (n mod 10) :: acc in
      if n <? 10 then acc' else decimalDigits f (n / 10) acc'
  end.

(** The text of an integer in a template literal. *)
Definition numberToString (z : Z) : jsstring :=
  let n := Z.to_nat (Z.abs z) in
  (if (z <? 0)%Z then lit "-" else []) ++ decimalDigits (S n) n [].

Section Timestamps.

(** [new Date(iso).getTime()] in milliseconds; [None] is [NaN]. *)
Variable getTime : jsstring -> option Z.
(** The month-and-day text of [Intl.DateTimeFormat] for a valid time. *)
Variable formatMonthDay : Z -> jsstring.

(** [formatRelativeTimestamp(iso)] with [now] the value of
    [Date.now()]. Time values are integers of magnitude below 2^53, so
    the difference is exact, and each of the three quotients lies
    either on a half or further from it than the rounding error of the
    division: [Math.round] of the double is [roundDiv] of the
    integers. An invalid date fails every comparison and makes
    [format] raise a [RangeError], here [OtherError]. *)
Definition formatRelativeTimestamp (now : Z) (iso : jsstring)
  : Completion jsstring :=
  match getTime iso with
  | None => Thrown OtherError
  | Some timestamp =>
      let diff := (now - timestamp)%Z in
      let minutes := roundDiv diff 60000 in
      if (minutes <? 1)%Z then Normal (lit "Just now")
      else if (minutes <? 60)%Z then
        Normal (numberToString minutes ++ lit " min ago")
      else
        let hours := roundDiv minutes 60 in
        if (hours <? 24)%Z then
          Normal (numberToString hours ++ lit " hr"
                  ++ (if (1 <? hours)%Z then lit "s" else []) ++ lit " ago")
        else
          let days := roundDiv hours 24 in
          if (days <? 7)%Z then
            Normal (numberToString days ++ lit " day"
                    ++ (if (1 <? days)%Z then lit "s" else []) ++ lit " ago")
          else Normal (formatMonthDay timestamp)
  end.

End Timestamps.

(* ================================================================== *)
(** ** More vocabulary and sample data *)

(** White space in the string is made of single plain spaces only, and
    the string does not start with one. *)
Fixpoint singleSpaced (s : jsstring) : bool :=
  match s with
  | [] => true
  | c :: r =>
      (negb (isWhiteSpace c)
       || (N.eqb c SPACE
           && match r with
              | [] => true
              | c' :: _ => negb (isWhiteSpace c')
              end))
      && singleSpaced r
  end.

Definition tidyTitle (s : jsstring) : bool :=
  match s with
  | [] => true
  | c :: _ => negb (isWhiteSpace c)
  end && singleSpaced s.

Definition hasUser (M : list ChatMessage) : Prop :=
  exists m, In m M /\ msg_role m = role_user.

(** A message as the application creates it: identifier, role and time
    present, and a user message has a content that is not blank. *)
Definition validMessage (m : ChatMessage) : bool :=
  truthy (msg_id m) && truthy (msg_role m) && truthy (msg_createdAt m)
  && (negb (jseqb (msg_role m) role_user) || truthy (trim (msg_content m))).

Definition validSession (s : ChatSession) : bool :=
  truthy (sess_id s) && truthy (sess_title s)
  && truthy (sess_createdAt s) && truthy (sess_updatedAt s)
  && forallb validMessage (sess_messages s).

Definition idsOf (st : AppState) : list jsstring := map sess_id (sessions st).

(** The active pointer names a session of the collection. *)
Definition activeValid (st : AppState) : Prop :=
  exists id, activeSessionId st = Some id /\ In id (idsOf st).

(** Every session is valid and no identifier occurs twice. *)
Definition Sound (st : AppState) : Prop :=
  forallb validSession (sessions st) = true /\ NoDup (idsOf st).

Definition Healthy (st : AppState) : Prop := activeValid st /\ Sound st.

(** What a [SendDraws] must satisfy: nothing drawn is empty. *)
Definition drawsPresent (d : SendDraws) : bool :=
  truthy (draw_sessionId d) && truthy (draw_sessionTime d)
  && truthy (draw_messageId d) && truthy (draw_messageTime d)
  && truthy (draw_updateTime d).

(** Insertion sort with a comparator, a stand-in for the sort of the
    platform in the examples. *)
Fixpoint insertBy (cmp : ChatSession -> ChatSession -> Z) (x : ChatSession)
  (l : list ChatSession) : list ChatSession :=
  match l with
  | [] => [x]
  | y :: r => if (cmp x y <? 0)%Z then x :: l else y :: insertBy cmp x r
  end.

Definition insertionSort (cmp : ChatSession -> ChatSession -> Z)
  (l : list ChatSession) : list ChatSession :=
  fold_right (insertBy cmp) [] l.

Definition sampleDraws : SendDraws :=
  {| draw_sessionId := lit "n1"; draw_sessionTime := stamp 10;
     draw_messageId := lit "u1"; draw_messageTime := stamp 10;
     draw_updateTime := stamp 10 |}.

(** The composer over a state, with [text] typed in the input box. *)
Definition typing (text : string) (st : AppState) : Composer :=
  {| appState := st; inputValue := lit text; isTyping := false;
     emojiOpen := true; pendingReply := None |}.

Definition blankState : AppState :=
  {| sessions := []; activeSessionId := None; searchTerm := [] |}.

(** A parser that inverts [stringifyIds] on the three chats of
    [threeChats] and rejects every other text. *)
Definition parseThreeChats (text : jsstring) : Completion Parsed :=
  if jseqb text (stringifyIds threeChats)
  then Normal (ParsedArray (map raw_of_session threeChats))
  else Thrown SyntaxError.

(** Times in milliseconds read off the minute field of [stamp]. *)
Definition getTimeSample (iso : jsstring) : option Z :=
  if jseqb iso (stamp 0) then Some 0%Z
  else if jseqb iso (stamp 1) then Some 60000%Z
  else None.

(** The last line of the synthesized reply. *)
Definition replyClosing : jsstring :=
  lit "This demo mirrors the ChatGPT interface with fully local chat history. Feel free to keep exploring or start a new conversation!".

(** The user message [handleSend] builds from the input box. *)
Definition userMessageOf (d : SendDraws) (input : jsstring) : ChatMessage :=
  {| msg_id := draw_messageId d;
     msg_role := role_user;
     msg_content := trim input;
     msg_createdAt := draw_messageTime d |}.

(** A session after one more message: the message appended, the title
    derived again, [updatedAt] refreshed. *)
Definition withMessage (now : jsstring) (message : ChatMessage)
  (session : ChatSession) : ChatSession :=
  {| sess_id := sess_id session;
     sess_title := deriveTitle (sess_messages session ++ [message]);
     sess_messages := sess_messages session ++ [message];
     sess_createdAt := sess_createdAt session;
     sess_updatedAt := now |}.

(* ================================================================== *)
(** * Properties *)

(** ** Capacity enforcement *)

Lemma slice_last_length {A} (n : nat) (l : list A) :
  length (slice_last n l) = Nat.min n (length l).
Proof.
  unfold slice_last. rewrite length_skipn. lia.
Qed.

Lemma slice_last_short {A} (n : nat) (l : list A) :
  length l <= n -> slice_last n l = l.
Proof.
  intros H. unfold slice_last.
  replace (length l - n) with 0 by lia. reflexivity.
Qed.

Lemma slice_last_suffix {A} (n : nat) (l : list A) :
  firstn (length l - n) l ++ slice_last n l = l.
Proof. unfold slice_last. apply firstn_skipn. Qed.

Lemma ensureCapacity_within (S : list ChatSession) :
  length S <= MAX_SESSION_HISTORY -> ensureCapacity S = S.
Proof.
  intros H. unfold ensureCapacity.
  apply Nat.leb_le in H. rewrite H. reflexivity.
Qed.

Lemma ensureCapacity_over (S : list ChatSession) :
  MAX_SESSION_HISTORY < length S ->
  ensureCapacity S
  = map truncateMessages (skipn (length S - MAX_SESSION_HISTORY) S).
Proof.
  intros H. unfold ensureCapacity.
  apply Nat.leb_gt in H. rewrite H. reflexivity.
Qed.

Lemma ensureCapacity_length (S : list ChatSession) :
  length (ensureCapacity S) <= MAX_SESSION_HISTORY.
Proof.
  unfold ensureCapacity.
  destruct (length S <=? MAX_SESSION_HISTORY) eqn:E.
  - now apply Nat.leb_le.
  - rewrite length_map, slice_last_length. lia.
Qed.

Lemma truncateMessages_recent (s : ChatSession) :
  sess_messages (truncateMessages s) = slice_last 200 (sess_messages s)
  /\ length (sess_messages (truncateMessages s)) <= 200
  /\ sess_id (truncateMessages s) = sess_id s
  /\ sess_createdAt (truncateMessages s) = sess_createdAt s.
Proof.
  unfold truncateMessages; simpl. repeat split.
  rewrite slice_last_length. lia.
Qed.

Lemma newest_first_head_newest (s : ChatSession) (r : list ChatSession) :
  newest_first (s :: r) = true ->
  forall o, In o r -> jsltb (sess_createdAt o) (sess_createdAt s) = true.
Proof.
  simpl. intros H o Ho.
  apply andb_true_iff in H as [H _].
  rewrite forallb_forall in H. now apply H.
Qed.

(** Whenever the collection is over capacity and ordered newest-created
    first, the session created last is not among the kept ones: every
    kept session was created strictly before it. *)
Lemma ensureCapacity_drops_newest (s : ChatSession) (r : list ChatSession) :
  newest_first (s :: r) = true ->
  MAX_SESSION_HISTORY < length (s :: r) ->
  forall k, In k (ensureCapacity (s :: r)) ->
    jsltb (sess_createdAt k) (sess_createdAt s) = true.
Proof.
  intros Hn Hlen k Hk.
  rewrite ensureCapacity_over in Hk by exact Hlen.
  apply in_map_iff in Hk as (o & <- & Ho).
  unfold MAX_SESSION_HISTORY in *. simpl in Hlen.
  replace (length (s :: r) - 75) with (S (length r - 75)) in Ho
    by (simpl; lia).
  simpl in Ho.
  change (jsltb (sess_createdAt o) (sess_createdAt s) = true).
  apply (newest_first_head_newest _ _ Hn).
  rewrite <- (firstn_skipn (length r - 75) r).
  apply in_or_app. now right.
Qed.

(** C1. On a collection that is over capacity and ordered newest-created
    first, [ensureCapacity] does not keep the 75 most recently created
    sessions. After 76 "New chat" clicks the collection holds 76
    sessions, newest first; [ensureCapacity] returns its tail: the chat
    created last ([s75]) is the one dropped and the oldest one ([s00])
    is kept, where the claim expects the first 75 entries. *)
Theorem ensureCapacity_76_drops_latest_chat :
  length sessions76 = 76
  /\ newest_first sessions76 = true
  /\ hd_error sessions76 = Some (createEmptySession (lit "s75") (stamp 75))
  /\ ensureCapacity sessions76 = tl sessions76
  /\ existsb (fun k => jseqb (sess_id k) (lit "s75"))
       (ensureCapacity sessions76) = false
  /\ existsb (fun k => jseqb (sess_id k) (lit "s00"))
       (ensureCapacity sessions76) = true
  /\ ensureCapacity sessions76 <> firstn 75 sessions76.
Proof.
  repeat split; try (vm_compute; reflexivity).
  intros H. apply (f_equal (@hd_error _)) in H.
  vm_compute in H. discriminate H.
Qed.

(** C10. [ensureCapacity] is idempotent: its result has at most 75
    sessions, a collection of at most 75 sessions is returned as it is
    (whatever the length of its message lists), and so a second
    application changes nothing. *)
Theorem ensureCapacity_idempotent (S : list ChatSession) :
  length (ensureCapacity S) <= MAX_SESSION_HISTORY
  /\ (forall T, length T <= MAX_SESSION_HISTORY -> ensureCapacity T = T)
  /\ ensureCapacity (ensureCapacity S) = ensureCapacity S.
Proof.
  split; [apply ensureCapacity_length|].
  split; [exact ensureCapacity_within|].
  apply ensureCapacity_within, ensureCapacity_length.
Qed.

Lemma ensureCapacity_idempotent_witness :
  length (sess_messages (longSession 201)) = 201
  /\ ensureCapacity [longSession 201] = [longSession 201]
  /\ ensureCapacity (ensureCapacity sessions76) = ensureCapacity sessions76.
Proof.
  destruct (ensureCapacity_idempotent sessions76) as (_ & Hin & Hid).
  split; [vm_compute; reflexivity|].
  split; [apply Hin; vm_compute; lia | exact Hid].
Defined.

(** ** Strings *)

Lemma jseqb_eq (a b : jsstring) : jseqb a b = true <-> a = b.
Proof.
  unfold jseqb. destruct (list_eq_dec N.eq_dec a b); split; congruence.
Qed.

Lemma jseqb_neq (a b : jsstring) : jseqb a b = false <-> a <> b.
Proof.
  unfold jseqb. destruct (list_eq_dec N.eq_dec a b); split; congruence.
Qed.

Lemma jseqb_refl (a : jsstring) : jseqb a a = true.
Proof. now apply jseqb_eq. Qed.

Lemma space_is_white : isWhiteSpace SPACE = true.
Proof. reflexivity. Qed.

Lemma trimEnd_cons_black (c : N) (r : jsstring) :
  isWhiteSpace c = false -> trimEnd (c :: r) = c :: trimEnd r.
Proof.
  intros H. simpl. rewrite H. now destruct (trimEnd r).
Qed.

Lemma trimEnd_cons_kept (c : N) (r : jsstring) :
  trimEnd r <> [] -> trimEnd (c :: r) = c :: trimEnd r.
Proof.
  intros H. simpl. destruct (trimEnd r); [congruence | reflexivity].
Qed.

Lemma trimEnd_cons_white (c : N) (r : jsstring) :
  isWhiteSpace c = true -> trimEnd r = [] -> trimEnd (c :: r) = [].
Proof. intros H E. simpl. now rewrite E, H. Qed.

Lemma collapse_cons_black (c : N) (r : jsstring) :
  isWhiteSpace c = false ->
  collapseWhitespace (c :: r) = c :: collapseWhitespace r.
Proof. intros H. simpl. now rewrite H. Qed.

Lemma collapse_white_white (c c' : N) (r : jsstring) :
  isWhiteSpace c = true -> isWhiteSpace c' = true ->
  collapseWhitespace (c :: c' :: r) = collapseWhitespace (c' :: r).
Proof. intros H H'. cbn [collapseWhitespace]. now rewrite H, H'. Qed.

Lemma collapse_white_black (c c' : N) (r : jsstring) :
  isWhiteSpace c = true -> isWhiteSpace c' = false ->
  collapseWhitespace (c :: c' :: r) = SPACE :: collapseWhitespace (c' :: r).
Proof. intros H H'. cbn [collapseWhitespace]. now rewrite H, H'. Qed.

(** Stripping leading white space commutes with collapsing the runs. *)
Lemma trimStart_collapse (s : jsstring) :
  trimStart (collapseWhitespace s) = collapseWhitespace (trimStart s).
Proof.
  induction s as [|c r IH]; [reflexivity|].
  destruct (isWhiteSpace c) eqn:Hc.
  - cbn [trimStart]. rewrite Hc.
    destruct r as [|c' r']; [cbn; rewrite Hc; reflexivity|].
    destruct (isWhiteSpace c') eqn:Hc'.
    + rewrite collapse_white_white by assumption. exact IH.
    + rewrite collapse_white_black by assumption.
      cbn [trimStart]. rewrite space_is_white. exact IH.
  - rewrite collapse_cons_black by assumption.
    cbn [trimStart]. rewrite Hc.
    now rewrite collapse_cons_black.
Qed.

(** Stripping trailing white space commutes with collapsing the runs. *)
Lemma trimEnd_collapse (s : jsstring) :
  trimEnd (collapseWhitespace s) = collapseWhitespace (trimEnd s).
Proof.
  induction s as [|c r IH]; [reflexivity|].
  destruct (isWhiteSpace c) eqn:Hc.
  - destruct r as [|c' r'].
    + simpl. rewrite Hc. reflexivity.
    + destruct (isWhiteSpace c') eqn:Hc'.
      * rewrite collapse_white_white by assumption. rewrite IH.
        destruct (trimEnd (c' :: r')) as [|d t] eqn:E.
        -- now rewrite trimEnd_cons_white.
        -- rewrite trimEnd_cons_kept by congruence. rewrite E.
           assert (d = c') as ->.
           { simpl in E. destruct (trimEnd r'); rewrite ?Hc' in E; congruence. }
           now rewrite collapse_white_white.
      * rewrite collapse_white_black by assumption.
        assert (E : trimEnd (c' :: r') = c' :: trimEnd r')
          by now apply trimEnd_cons_black.
        rewrite (trimEnd_cons_kept c) by (rewrite E; discriminate).
        rewrite E, collapse_white_black by assumption.
        rewrite trimEnd_cons_kept.
        -- now rewrite IH, E.
        -- rewrite IH, E, collapse_cons_black by assumption. discriminate.
  - rewrite collapse_cons_black, !trimEnd_cons_black by assumption.
    now rewrite IH, collapse_cons_black.
Qed.

(** Collapsing the runs and then trimming, as the specification words
    it, gives what the source computes by trimming first. *)
Lemma trim_collapse (s : jsstring) :
  trim (collapseWhitespace s) = collapseWhitespace (trim s).
Proof.
  unfold trim. now rewrite trimStart_collapse, trimEnd_collapse.
Qed.

(** ** Title derivation *)

Lemma find_user_spec (M : list ChatMessage) :
  match find (fun message => jseqb (msg_role message) role_user) M with
  | None => noUser M
  | Some m => firstUser M m
  end.
Proof.
  induction M as [|x M IH]; simpl.
  - intros m [].
  - destruct (jseqb (msg_role x) role_user) eqn:E.
    + exists [], M. repeat split.
      * intros m [].
      * now apply jseqb_eq.
    + apply jseqb_neq in E.
      destruct (find _ M) as [m|].
      * destruct IH as (pre & post & -> & Hpre & Hm).
        exists (x :: pre), post. repeat split; trivial.
        intros y [<-|Hy]; auto.
      * intros y [<-|Hy]; auto.
Qed.

Lemma titleOfContent_length (content : jsstring) :
  length (titleOfContent content) <= 46.
Proof.
  unfold titleOfContent.
  destruct (length _ <=? 45) eqn:E.
  - apply Nat.leb_le in E. lia.
  - rewrite length_app, length_firstn.
    change (length [ELLIPSIS]) with 1. lia.
Qed.

Lemma titleOfContent_spec (content : jsstring) :
  let c := trim (collapseWhitespace content) in
  (length c <= 45 -> titleOfContent content = c)
  /\ (45 < length c -> titleOfContent content = firstn 45 c ++ [ELLIPSIS])
  /\ (titleOfContent content = NEW_CHAT <-> c = NEW_CHAT).
Proof.
  cbv zeta. rewrite trim_collapse. unfold titleOfContent.
  set (c := collapseWhitespace (trim content)).
  destruct (length c <=? 45) eqn:E.
  - apply Nat.leb_le in E. repeat split; trivial; lia.
  - apply Nat.leb_gt in E. repeat split; trivial; try lia.
    + intros H. apply (f_equal (@length _)) in H.
      rewrite length_app, length_firstn in H.
      change (length [ELLIPSIS]) with 1 in H.
      change (length NEW_CHAT) with 8 in H. lia.
    + intros H. rewrite H in E.
      change (length NEW_CHAT) with 8 in E. lia.
Qed.

(** On well-typed messages the two readings of [deriveTitle] agree, and
    the one used by [sanitizeSessions] does not raise. *)
Lemma deriveTitle_raw_typed (M : list ChatMessage) :
  deriveTitle_raw (map raw_of_message M) = Normal (deriveTitle M).
Proof.
  unfold deriveTitle_raw, deriveTitle.
  induction M as [|m M IH]; [reflexivity|].
  cbn [map findFirstUser_raw raw_of_message raw_msg_role find].
  destruct (jseqb (msg_role m) role_user); [reflexivity | exact IH].
Qed.

Lemma collapse_nil (s : jsstring) : collapseWhitespace s = [] <-> s = [].
Proof.
  split; [|now intros ->].
  induction s as [|c r IH]; [reflexivity|]. simpl.
  destruct (isWhiteSpace c); [|discriminate].
  destruct r as [|c' r']; [discriminate|].
  destruct (isWhiteSpace c'); [|discriminate].
  intros H. specialize (IH H). discriminate IH.
Qed.

(** C2 (as amended). [deriveTitle M] is ["New chat"] when [M] holds no
    user message. Otherwise, with [c] the content of the first user
    message after collapsing its white-space runs and trimming, the
    result has at most 46 units, is [c] when [c] has at most 45 units
    and the first 45 units of [c] followed by the ellipsis when it has
    more; in that case the result is ["New chat"] exactly when [c] is. *)
Theorem deriveTitle_spec (M : list ChatMessage) :
  (noUser M /\ deriveTitle M = NEW_CHAT)
  \/ (exists m, firstUser M m /\
        let c := trim (collapseWhitespace (msg_content m)) in
        length (deriveTitle M) <= 46
        /\ (length c <= 45 -> deriveTitle M = c)
        /\ (45 < length c -> deriveTitle M = firstn 45 c ++ [ELLIPSIS])
        /\ (deriveTitle M = NEW_CHAT <-> c = NEW_CHAT)).
Proof.
  unfold deriveTitle. pose proof (find_user_spec M) as H.
  destruct (find _ M) as [m|].
  - right. exists m. split; [exact H|]. cbv zeta.
    split; [apply titleOfContent_length|].
    apply (titleOfContent_spec (msg_content m)).
  - left. now split.
Qed.

Lemma deriveTitle_spec_witness :
  length (deriveTitle saysNewChat) <= 46.
Proof.
  destruct (deriveTitle_spec saysNewChat) as [[_ E]|(m & _ & H & _)].
  - rewrite E. vm_compute. lia.
  - exact H.
Defined.

(** C2, counterexample. A sequence whose first user message reads
    "New chat" has the title ["New chat"] and does hold a user message:
    the equivalence of the claim fails from left to right. *)
Lemma deriveTitle_new_chat_not_iff_no_user :
  ~ (forall M : list ChatMessage, deriveTitle M = NEW_CHAT <-> noUser M).
Proof.
  intros H. destruct (H saysNewChat) as [H1 _].
  apply (H1 eq_refl (createMessage (lit "m1") (stamp 0) role_user (lit "New chat"))).
  - now left.
  - reflexivity.
Qed.

(** ** Sanitizer *)

(** The fused functions drop exactly what the filters of the source
    reject. *)
Lemma sanitizeMessage_keeps (now : jsstring) (m : option RawMessage) :
  sanitizeMessage now m = None <-> keepsMessage m = false.
Proof.
  unfold sanitizeMessage, keepsMessage. destruct m as [r|]; [|tauto].
  destruct (raw_msg_id r), (raw_msg_role r), (raw_msg_content r); try tauto.
  destruct (truthy _ && truthy _); split; congruence.
Qed.

Lemma sanitizeSession_keeps (now : jsstring) (s : option RawSession) :
  sanitizeSession now s = None <-> keepsSession s = false.
Proof.
  unfold sanitizeSession, keepsSession. destruct s as [r|]; [|tauto].
  destruct (raw_id r), (raw_messages r); try tauto.
  destruct (truthy _); split; congruence.
Qed.

(** *** When a second pass changes nothing *)

Lemma orElse_idem (a : option jsstring) (d : jsstring) :
  orElse (Some (orElse a d)) d = orElse a d.
Proof.
  unfold orElse at 1. destruct (truthy (orElse a d)) eqn:E; [reflexivity|].
  unfold orElse in *. destruct a as [s|]; [destruct (truthy s) eqn:Es|];
    try congruence; now destruct d.
Qed.

Lemma orElse_chain_idem (a b : option jsstring) (d : jsstring) :
  orElse (Some (orElse a (orElse b d))) (orElse (Some (orElse b d)) d)
  = orElse a (orElse b d).
Proof.
  rewrite orElse_idem. apply orElse_idem.
Qed.

Lemma sanitizeMessage_fix (now : jsstring) (raw : option RawMessage)
  (m : ChatMessage) :
  sanitizeMessage now raw = Some m ->
  sanitizeMessage now (raw_of_message m) = Some m.
Proof.
  unfold sanitizeMessage. destruct raw as [r|]; [|discriminate].
  destruct (raw_msg_id r) as [id|]; [|discriminate].
  destruct (raw_msg_role r) as [role|]; [|discriminate].
  destruct (raw_msg_content r) as [content|]; [|discriminate].
  destruct (truthy id && truthy role) eqn:E; [|discriminate].
  intros [= <-]. unfold raw_of_message.
  cbn [raw_msg_id raw_msg_role raw_msg_content raw_msg_createdAt
       msg_id msg_role msg_content msg_createdAt].
  rewrite E, orElse_idem. reflexivity.
Qed.

Lemma sanitizeMessages_fix (now : jsstring) (raw : list (option RawMessage)) :
  filterMap (sanitizeMessage now)
    (map raw_of_message (filterMap (sanitizeMessage now) raw))
  = filterMap (sanitizeMessage now) raw.
Proof.
  induction raw as [|r raw IH]; [reflexivity|].
  cbn [filterMap]. destruct (sanitizeMessage now r) as [m|] eqn:E; [|exact IH].
  cbn [map filterMap]. rewrite (sanitizeMessage_fix _ _ E). now rewrite IH.
Qed.

Lemma sanitizeSession_fix (now : jsstring) (raw : option RawSession)
  (s : ChatSession) :
  sanitizeSession now raw = Some (Normal s) ->
  sess_title s <> [] ->
  sanitizeSession now (raw_of_session s) = Some (Normal s).
Proof.
  unfold sanitizeSession. destruct raw as [r|]; [|discriminate].
  destruct (raw_id r) as [id|]; [|discriminate].
  destruct (raw_messages r) as [msgs|]; [|discriminate].
  destruct (truthy id) eqn:Eid; [|discriminate].
  intros H Ht.
  assert (exists title,
    s = {| sess_id := id; sess_title := title;
           sess_messages := filterMap (sanitizeMessage now) msgs;
           sess_createdAt := orElse (raw_createdAt r) now;
           sess_updatedAt :=
             orElse (raw_updatedAt r) (orElse (raw_createdAt r) now) |})
    as [title ->].
  { injection H as H. 
    destruct (match raw_title r with
              | Some t => if truthy t then Normal t else deriveTitle_raw msgs
              | None => deriveTitle_raw msgs end) as [title|e];
      [|discriminate H].
    exists title. cbn in H. congruence. }
  cbn [sess_title] in Ht. unfold raw_of_session.
  cbn [raw_id raw_title raw_messages raw_createdAt raw_updatedAt
       sess_id sess_title sess_messages sess_createdAt sess_updatedAt].
  rewrite Eid.
  destruct title as [|c title]; [congruence|]. cbn [truthy bind].
  rewrite sanitizeMessages_fix, orElse_chain_idem, orElse_idem.
  reflexivity.
Qed.

(** If one pass of [sanitizeSessions] returns sessions that all have a
    non-empty title, a second pass returns the same sessions. *)
Lemma sanitizeSessions_stable (now : jsstring) (raw : list (option RawSession)) :
  forall once,
  sanitizeSessions now raw = Normal once ->
  (forall s, In s once -> sess_title s <> []) ->
  sanitizeSessions now (map raw_of_session once) = Normal once.
Proof.
  unfold sanitizeSessions.
  induction raw as [|r raw IH]; intros once H Ht.
  - injection H as <-. reflexivity.
  - cbn [filterMap] in H.
    destruct (sanitizeSession now r) as [[s|e]|] eqn:E; cbn in H.
    + destruct (mapM (fun c => c) (filterMap (sanitizeSession now) raw))
        as [rest|e] eqn:Er; [|discriminate H].
      injection H as <-.
      cbn [map filterMap].
      rewrite (sanitizeSession_fix _ _ E) by (apply Ht; now left).
      cbn. rewrite (IH rest eq_refl) by (intros x Hx; apply Ht; now right).
      reflexivity.
    + discriminate H.
    + now apply IH.
Qed.

(** C4. A stored session with an empty title whose first user message
    is blank comes out of [sanitizeSessions] with the empty title: the
    fallback [session.title || deriveTitle(...)] derives [""] from the
    blank content. The claim requires a non-empty title there. *)
Theorem sanitizeSessions_blank_title :
  sanitizeSessions (stamp 9) (map raw_of_session blankSessions)
  = Normal blankSessions
  /\ map sess_title blankSessions = [ [] ]
  /\ deriveTitle (flat_map sess_messages blankSessions) = [].
Proof. repeat split. Qed.

(** C5. On a stored session with an empty title, a first user message
    that the message filter drops (empty identifier) and whose content
    is blank, and a second, valid user message, one pass of
    [sanitizeSessions] leaves the title empty (it is derived from the
    unfiltered messages) and a second pass sets it to "Hello" (derived
    from the filtered ones): the two results differ. *)
Theorem sanitizeSessions_second_pass_differs :
  exists once twice,
    sanitizeSessions (stamp 9) (map raw_of_session staleSessions) = Normal once
    /\ sanitizeTwice (stamp 9) (map raw_of_session staleSessions) = Normal twice
    /\ map sess_title once = [ [] ]
    /\ map sess_title twice = [ lit "Hello" ]
    /\ once <> twice.
Proof.
  eexists. eexists.
  split; [vm_compute; reflexivity|].
  split; [vm_compute; reflexivity|].
  split; [reflexivity|]. split; [reflexivity|].
  intros H. apply (f_equal (map sess_title)) in H. discriminate H.
Qed.

(** ** Storage adapter: reading *)

Section Reading.

Variable JSON_parse : jsstring -> Completion Parsed.
(** The empty text is not JSON. *)
Hypothesis JSON_parse_empty : JSON_parse [] = Thrown SyntaxError.

Variable now : jsstring.



End Reading.



(** ** Storage adapter: writing *)

Section Writing.

Variable JSON_stringify : list ChatSession -> jsstring.
Variable outcomes : nat -> Completion unit.

Lemma skipn_seq_shift (x : ChatSession) (rest : list ChatSession) (n : nat) :
  map (fun i => skipn i (x :: rest)) (seq 1 n)
  = map (fun i => skipn i rest) (seq 0 n).
Proof.
  rewrite <- seq_shift, map_map. reflexivity.
Qed.

(** The loop tries the payload, then the payload without its first
    element, and so on; it goes on only after a quota failure; it ends
    at the first call that succeeds (the slot then holds the payload of
    that call), at the first failure that is not a quota failure (the
    store is left as it was), or when nothing is left to drop. *)
Lemma persistLoop_spec (payload : list ChatSession) :
  forall (k0 : nat) (env : Env),
  exists n,
    let (env', attempts) := persistLoop JSON_stringify outcomes k0 payload env in
    n <= length payload
    /\ attempts = map (fun i => skipn i payload) (seq 0 n)
    /\ (forall i, S i < n -> quotaFailure (outcomes (k0 + i)))
    /\ ((n = length payload
         /\ (forall i, i < n -> quotaFailure (outcomes (k0 + i)))
         /\ env' = env)
        \/ (exists i, n = S i
              /\ outcomes (k0 + i) = Normal tt
              /\ env' = store STORAGE_KEY (JSON_stringify (skipn i payload)) env)
        \/ (exists i e, n = S i
              /\ outcomes (k0 + i) = Thrown e
              /\ isQuotaError e = false
              /\ localStorage env' = localStorage env)).
Proof.
  induction payload as [|x rest IH]; intros k0 env.
  - exists 0. cbn. repeat split; try lia.
    left. repeat split; intros; lia.
  - cbn [persistLoop].
    destruct (outcomes k0) as [[]|e] eqn:Hk.
    + exists 1. repeat split; try (cbn; lia).
      right; left. exists 0. rewrite Nat.add_0_r. now repeat split.
    + destruct (isQuotaError e) eqn:Hq.
      * destruct (IH (S k0) env) as [n Hn].
        destruct (persistLoop JSON_stringify outcomes (S k0) rest env)
          as [env' attempts].
        destruct Hn as (Hle & Hatt & Hmid & Hend).
        exists (S n). split; [cbn; lia|].
        split.
        { cbn [seq map]. rewrite skipn_seq_shift. now rewrite Hatt. }
        assert (Hshift : forall i, S k0 + i = k0 + S i) by (intros; lia).
        split.
        { intros [|i] Hi.
          - rewrite Nat.add_0_r, Hk. now exists e.
          - rewrite <- Hshift. apply Hmid. lia. }
        destruct Hend as [(-> & Hall & ->)|[(i & -> & Hi & ->)|(i & e' & -> & Hi & He & Hs)]].
        -- left. repeat split.
           intros [|i] Hi.
           ++ rewrite Nat.add_0_r, Hk. now exists e.
           ++ rewrite <- Hshift. apply Hall. lia.
        -- right; left. exists (S i). rewrite <- Hshift. now repeat split.
        -- right; right. exists (S i), e'. rewrite <- Hshift. now repeat split.
      * exists 1. repeat split; try (cbn; lia).
        right; right. exists 0, e. rewrite Nat.add_0_r. now repeat split.
Qed.

(** The retry loop by position, for every sequence of write outcomes.
    With a store at hand, [persistToStorage] first applies
    [ensureCapacity]; its [setItem] calls receive that payload, then the
    payload without its front element, and so on, one more element
    dropped at each call; every call but the last failed on quota; the
    run never raises and ends in one of three ways: a call succeeded
    and the slot holds the serialisation of the payload of that call;
    or a call failed with another error, no further call was made and
    the store is as before; or every call failed on quota, as many
    calls as the payload had sessions were made, and the store is as
    before. Which session is the oldest is not part of this statement:
    see [persistToStorage_evicts_newest_first]. *)
Theorem persistToStorage_spec (sessions : list ChatSession) (env : Env) :
  let payload := ensureCapacity sessions in
  let run := persistToStorage JSON_stringify outcomes sessions (Some env) in
  exists n env',
    run_env run = Some env'
    /\ n <= length payload
    /\ run_attempts run = map (fun i => skipn i payload) (seq 0 n)
    /\ (forall i, S i < n -> quotaFailure (outcomes i))
    /\ ((n = length payload
         /\ (forall i, i < n -> quotaFailure (outcomes i))
         /\ env' = env)
        \/ (exists i, n = S i
              /\ outcomes i = Normal tt
              /\ env' = store STORAGE_KEY (JSON_stringify (skipn i payload)) env)
        \/ (exists i e, n = S i
              /\ outcomes i = Thrown e
              /\ isQuotaError e = false
              /\ localStorage env' = localStorage env)).
Proof.
  cbv zeta. unfold persistToStorage.
  destruct (persistLoop_spec (ensureCapacity sessions) 0 env) as [n Hn].
  destruct (persistLoop JSON_stringify outcomes 0 (ensureCapacity sessions) env)
    as [env' attempts].
  exists n, env'. cbn [run_env run_attempts].
  split; [reflexivity|]. exact Hn.
Qed.

End Writing.


Lemma persistToStorage_spec_witness :
  run_attempts
    (persistToStorage stringifyIds (twoQuotaThen (Normal tt)) threeChats emptyWindow)
  = [threeChats; skipn 1 threeChats; skipn 2 threeChats]
  /\ option_map localStorage
       (run_env (persistToStorage stringifyIds (twoQuotaThen (Normal tt))
                   threeChats emptyWindow))
     = Some [(STORAGE_KEY, lit "s00,")]
  /\ run_env (persistToStorage stringifyIds (fun _ => quotaExceeded)
                threeChats emptyWindow) = emptyWindow
  /\ length (run_attempts
               (persistToStorage stringifyIds (twoQuotaThen (Thrown OtherError))
                  threeChats emptyWindow)) <= 3.
Proof.
  split; [vm_compute; reflexivity|].
  split; [vm_compute; reflexivity|].
  split; [vm_compute; reflexivity|].
  destruct (persistToStorage_spec stringifyIds (twoQuotaThen (Thrown OtherError))
              threeChats {| localStorage := []; console := [] |})
    as (n & env' & _ & Hn & Hrun & _).
  unfold emptyWindow. rewrite Hrun, length_map, length_seq. exact Hn.
Defined.

(** On a collection within capacity and ordered newest-created first,
    a quota failure of the first write makes the second write leave out
    the front session, and that session was created after every
    session the second write keeps. *)
Lemma persistToStorage_quota_drops_newest
  (JSON_stringify : list ChatSession -> jsstring)
  (outcomes : nat -> Completion unit)
  (s next : ChatSession) (rest : list ChatSession) (env : Env) :
  length (s :: next :: rest) <= MAX_SESSION_HISTORY ->
  newest_first (s :: next :: rest) = true ->
  quotaFailure (outcomes 0) ->
  nth_error
    (run_attempts
       (persistToStorage JSON_stringify outcomes (s :: next :: rest) (Some env)))
    1 = Some (next :: rest)
  /\ forall kept, In kept (next :: rest) ->
       jsltb (sess_createdAt kept) (sess_createdAt s) = true.
Proof.
  intros Hlen Hnew (e & He & Hq).
  split; [|now apply newest_first_head_newest].
  unfold persistToStorage. rewrite (ensureCapacity_within _ Hlen).
  cbn [persistLoop]. rewrite He, Hq.
  destruct (outcomes 1) as [u|e1].
  - reflexivity.
  - destruct (isQuotaError e1); [|reflexivity].
    now destruct (persistLoop JSON_stringify outcomes 2 rest env).
Qed.

(** C3. On a quota failure [persistToStorage] does not evict the
    oldest session. The three chats [s02; s01; s00] are ordered
    newest-created first, as [handleNewChat] builds the collection.
    When the first two writes fail on quota and the third succeeds, the
    writes receive the whole payload, then the payload without [s02],
    then the payload without [s02] and [s01]; the slot ends up holding
    [s00] alone. Both evicted sessions were created after the one that
    is kept: the newest sessions are evicted and the oldest survives,
    where the claim has the oldest evicted first. *)
Theorem persistToStorage_evicts_newest_first :
  let run :=
    persistToStorage stringifyIds (twoQuotaThen (Normal tt)) threeChats
      emptyWindow in
  newest_first threeChats = true
  /\ map sess_id threeChats = [lit "s02"; lit "s01"; lit "s00"]
  /\ map (map sess_id) (run_attempts run)
     = [ [lit "s02"; lit "s01"; lit "s00"];
         [lit "s01"; lit "s00"];
         [lit "s00"] ]
  /\ option_map localStorage (run_env run)
     = Some [(STORAGE_KEY, stringifyIds (skipn 2 threeChats))]
  /\ map sess_id (skipn 2 threeChats) = [lit "s00"]
  /\ forallb
       (fun evicted =>
          forallb
            (fun kept =>
               jsltb (sess_createdAt kept) (sess_createdAt evicted))
            (skipn 2 threeChats))
       (firstn 2 threeChats) = true.
Proof.
  cbv zeta. repeat split; vm_compute; reflexivity.
Qed.

(** ** Search *)

Lemma startsWith_spec (needle s : jsstring) :
  startsWith needle s = true <-> exists post, s = needle ++ post.
Proof.
  revert s. induction needle as [|a n IH]; intros s; simpl.
  - split; [intros _; now exists s | reflexivity].
  - destruct s as [|b s].
    + split; [discriminate | intros [post H]; discriminate H].
    + rewrite andb_true_iff, N.eqb_eq, IH. split.
      * intros [-> [post ->]]. now exists post.
      * intros [post [= -> ->]]. split; [reflexivity | now exists post].
Qed.

Lemma includes_spec (s needle : jsstring) :
  includes s needle = true <-> substring needle s.
Proof.
  unfold substring. induction s as [|b s IH]; cbn [includes].
  - rewrite orb_false_r, startsWith_spec. split.
    + intros [post ->]. now exists [], post.
    + intros (pre & post & H). destruct pre; [now exists post | discriminate H].
  - rewrite orb_true_iff, startsWith_spec, IH. split.
    + intros [[post ->]|(pre & post & ->)].
      * now exists [], post.
      * now exists (b :: pre), post.
    + intros (pre & post & H). destruct pre as [|c pre].
      * left. now exists post.
      * right. injection H as -> ->. now exists pre, post.
Qed.

Lemma trimStart_blank (s : jsstring) : trimStart s = [] <-> blank s.
Proof.
  unfold blank. induction s as [|c r IH]; simpl.
  - split; [constructor | reflexivity].
  - destruct (isWhiteSpace c) eqn:Hc.
    + rewrite IH. split; [now constructor | now inversion 1].
    + split; [discriminate | inversion 1; congruence].
Qed.

Lemma trimEnd_blank (s : jsstring) : trimEnd s = [] <-> blank s.
Proof.
  unfold blank. induction s as [|c r IH]; simpl.
  - split; [constructor | reflexivity].
  - destruct (trimEnd r) as [|d t].
    + destruct (isWhiteSpace c) eqn:Hc.
      * split; [constructor; tauto | reflexivity].
      * split; [discriminate | inversion 1; congruence].
    + split; [discriminate|]. inversion 1; subst.
      assert (E : (d :: t) = []) by now apply IH. discriminate E.
Qed.

Lemma trimStart_black (s : jsstring) : blank (trimStart s) -> blank s.
Proof.
  unfold blank. induction s as [|c r IH]; simpl; trivial.
  destruct (isWhiteSpace c) eqn:Hc.
  - intros H. constructor; auto.
  - inversion 1; congruence.
Qed.

(** [!term.trim()] holds exactly for the blank terms. *)
Lemma trim_blank (term : jsstring) :
  truthy (trim term) = false <-> blank term.
Proof.
  unfold trim. split.
  - intros H. apply trimStart_black, trimEnd_blank.
    now destruct (trimEnd (trimStart term)).
  - intros H. apply trimStart_blank in H. now rewrite H.
Qed.

(** The derived title is empty exactly when the content of the first
    user message is blank. *)
Lemma titleOfContent_empty (content : jsstring) :
  titleOfContent content = [] <-> blank content.
Proof.
  rewrite <- trim_blank. unfold titleOfContent.
  destruct (length _ <=? 45) eqn:E.
  - rewrite collapse_nil. now destruct (trim content).
  - split.
    + intros H. apply (f_equal (@length _)) in H.
      rewrite length_app, Nat.add_comm in H. discriminate H.
    + intros H. destruct (trim content); [discriminate E | discriminate H].
Qed.

(** A sanitized title is empty only in the case that [deriveTitle]
    misses: the stored title is absent or empty and the first user
    message of the stored session has a blank content. *)
Lemma sanitizeSession_empty_title (now : jsstring) (r : RawSession)
  (s : ChatSession) :
  sanitizeSession now (Some r) = Some (Normal s) ->
  sess_title s = [] ->
  orElse (raw_title r) [] = []
  /\ exists msgs m content,
       raw_messages r = Some msgs
       /\ findFirstUser_raw msgs = Normal (Some m)
       /\ raw_msg_content m = Some content
       /\ blank content.
Proof.
  unfold sanitizeSession.
  destruct (raw_id r) as [id|]; [|discriminate].
  destruct (raw_messages r) as [msgs|]; [|discriminate].
  destruct (truthy id); [|discriminate].
  intros [= H] Ht.
  assert (Hd : deriveTitle_raw msgs = Normal [] ->
               exists m content,
                 findFirstUser_raw msgs = Normal (Some m)
                 /\ raw_msg_content m = Some content /\ blank content).
  { unfold deriveTitle_raw.
    destruct (findFirstUser_raw msgs) as [[m|]|e]; cbn; try discriminate.
    destruct (raw_msg_content m) as [content|] eqn:Ec; [|discriminate].
    intros [= E]. exists m, content.
    split; [reflexivity|]. split; [exact Ec|].
    apply titleOfContent_empty. exact E. }
  assert (Hsplit : forall c : Completion jsstring,
            (title <- c ;;
             Normal {| sess_id := id; sess_title := title;
                       sess_messages := filterMap (sanitizeMessage now) msgs;
                       sess_createdAt := orElse (raw_createdAt r) now;
                       sess_updatedAt :=
                         orElse (raw_updatedAt r)
                           (orElse (raw_createdAt r) now) |}) = Normal s ->
            c = Normal []).
  { intros [title|e]; cbn; [|discriminate].
    intros [= <-]. cbn in Ht. now subst title. }
  apply Hsplit in H.
  destruct (raw_title r) as [[|c t]|]; cbn [truthy orElse] in *.
  - split; [reflexivity|]. destruct (Hd H) as (m & content & Hm).
    now exists msgs, m, content.
  - discriminate H.
  - split; [reflexivity|]. destruct (Hd H) as (m & content & Hm).
    now exists msgs, m, content.
Qed.

Section Search.

Variable toLowerCase : jsstring -> jsstring.

Lemma matchesNeedle_spec (term : jsstring) (session : ChatSession) :
  matchesNeedle toLowerCase (toLowerCase term) session = true
  <-> matchesTerm toLowerCase term session.
Proof.
  unfold matchesNeedle, matchesTerm.
  rewrite orb_true_iff, includes_spec, existsb_exists.
  split; (intros [H|(m & Hm & H)]; [now left | right; exists m]);
    (split; [exact Hm|]); now apply includes_spec.
Qed.

(** C6. With a blank term (empty or white space only) the search
    returns the whole collection as it is. With any other term it
    returns the sessions for which the lowercased term occurs in the
    lowercased title or in the lowercased content of some message,
    each session as it is in the collection and in the order of the
    collection; so it returns the empty sequence when no session
    matches. The state is an argument and is not changed. *)
Theorem filteredSessions_spec (st : AppState) :
  let term := searchTerm st in
  let found := filteredSessions toLowerCase st in
  (blank term -> found = sessions st)
  /\ (~ blank term ->
      exists keep,
        found = filter keep (sessions st)
        /\ forall session, keep session = true
                           <-> matchesTerm toLowerCase term session)
  /\ (~ blank term ->
      (forall session, In session (sessions st) ->
                       ~ matchesTerm toLowerCase term session) ->
      found = []).
Proof.
  cbv zeta. unfold filteredSessions.
  destruct (truthy (trim (searchTerm st))) eqn:E; cbn [negb].
  - assert (Hnb : ~ blank (searchTerm st)).
    { intros H. apply trim_blank in H. congruence. }
    split; [tauto|]. split.
    + intros _. exists (matchesNeedle toLowerCase (toLowerCase (searchTerm st))).
      split; [reflexivity|]. intros s. apply matchesNeedle_spec.
    + intros _ Hno.
      induction (sessions st) as [|s l IH]; [reflexivity|].
      cbn [filter].
      destruct (matchesNeedle _ _ s) eqn:Hs.
      * apply matchesNeedle_spec in Hs. exfalso. apply (Hno s); [now left | exact Hs].
      * apply IH. intros x Hx. apply Hno. now right.
  - apply trim_blank in E. repeat split; tauto.
Qed.

End Search.

Lemma filteredSessions_spec_witness :
  filteredSessions lowerAscii (searching (lit "  ")) = threeChats
  /\ (exists keep,
        filteredSessions lowerAscii (searching (lit "hello"))
        = filter keep threeChats
        /\ forall session, keep session = true
                           <-> matchesTerm lowerAscii (lit "hello") session)
  /\ filteredSessions lowerAscii (searching (lit "hello")) = firstn 1 threeChats
  /\ filteredSessions lowerAscii (searching (lit "zzz")) = [].
Proof.
  assert (Hnb : forall c r, isWhiteSpace c = false -> ~ blank (c :: r)).
  { intros c r Hc H. inversion H; congruence. }
  split.
  { apply (filteredSessions_spec lowerAscii (searching (lit "  "))).
    repeat constructor. }
  split.
  { apply (filteredSessions_spec lowerAscii (searching (lit "hello"))).
    now apply Hnb. }
  split; [vm_compute; reflexivity|].
  apply (filteredSessions_spec lowerAscii (searching (lit "zzz"))).
  - now apply Hnb.
  - intros session Hs Hm. apply matchesNeedle_spec in Hm.
    cbn [sessions searching] in Hs.
    destruct Hs as [<-|[<-|[<-|[]]]]; vm_compute in Hm; discriminate Hm.
Defined.

(** ** Session state controller *)

Lemma others_spec (sessionId : jsstring) (collection : list ChatSession)
  (session : ChatSession) :
  In session (others sessionId collection)
  <-> In session collection /\ sess_id session <> sessionId.
Proof.
  unfold others. rewrite filter_In, negb_true_iff, jseqb_neq. reflexivity.
Qed.

(** C7. After [handleDeleteSession sessionId]: when no session with
    another identifier exists, the collection is exactly one fresh
    empty session (new identifier, title "New chat", no messages) and
    it is active; in particular this is so when the deleted session was
    the only one. Otherwise the collection is the sessions with another
    identifier, unchanged and in order, none with the deleted
    identifier; the first of them becomes active when the deleted
    session was the active one, and the active pointer is unchanged
    when it was not. *)
Theorem handleDeleteSession_spec (uuid now : jsstring) (outcome : Completion unit)
  (sessionId : jsstring) (st : AppState) (window : option Env) :
  let st' := fst (handleDeleteSession uuid now outcome sessionId st window) in
  let remaining := others sessionId (sessions st) in
  (remaining = [] ->
     sessions st' = [createEmptySession uuid now]
     /\ activeSessionId st' = Some uuid)
  /\ (forall only, sessions st = [only] -> sess_id only = sessionId ->
        sessions st' = [createEmptySession uuid now]
        /\ activeSessionId st' = Some uuid)
  /\ (remaining <> [] ->
        sessions st' = remaining
        /\ (forall session, In session (sessions st')
              <-> In session (sessions st) /\ sess_id session <> sessionId)
        /\ (activeSessionId st = Some sessionId ->
              activeSessionId st' = option_map sess_id (hd_error remaining))
        /\ (activeSessionId st <> Some sessionId ->
              activeSessionId st' = activeSessionId st)).
Proof.
  cbv zeta. unfold handleDeleteSession. fold (others sessionId (sessions st)).
  pose proof (others_spec sessionId (sessions st)) as Hin.
  assert (Honly : forall only, sessions st = [only] ->
            sess_id only = sessionId -> others sessionId (sessions st) = []).
  { intros only -> <-. unfold others. cbn. now rewrite jseqb_refl. }
  destruct (others sessionId (sessions st)) as [|first rest].
  - split; [now split|]. split; [now split | congruence].
  - split; [discriminate|]. split.
    { intros only Hs Hid. specialize (Honly only Hs Hid). discriminate Honly. }
    intros _.
    destruct (activeSessionId st) as [active|] eqn:Ha.
    + destruct (jseqb active sessionId) eqn:E; cbn.
      * apply jseqb_eq in E. subst active.
        repeat split; try apply Hin; trivial; congruence.
      * apply jseqb_neq in E.
        repeat split; try apply Hin; trivial; congruence.
    + cbn. repeat split; try apply Hin; trivial; congruence.
Qed.

Lemma handleDeleteSession_spec_witness :
  (let st' := fst (handleDeleteSession (lit "u1") (stamp 5) (Normal tt)
                     (lit "s00") (newChats 1) emptyWindow) in
   sessions st' = [createEmptySession (lit "u1") (stamp 5)]
   /\ activeSessionId st' = Some (lit "u1"))
  /\ (let st' := fst (handleDeleteSession (lit "u1") (stamp 5) (Normal tt)
                        (lit "s02") (threeChatsActive "s02") emptyWindow) in
      sessions st' = skipn 1 threeChats
      /\ activeSessionId st' = Some (lit "s01"))
  /\ (let st' := fst (handleDeleteSession (lit "u1") (stamp 5) (Normal tt)
                        (lit "s00") (threeChatsActive "s02") emptyWindow) in
      sessions st' = firstn 2 threeChats
      /\ activeSessionId st' = Some (lit "s02")).
Proof.
  split.
  { apply (handleDeleteSession_spec (lit "u1") (stamp 5) (Normal tt)
             (lit "s00") (newChats 1) emptyWindow)
      with (only := createEmptySession (lit "s00") (stamp 0)); reflexivity. }
  split.
  - destruct (handleDeleteSession_spec (lit "u1") (stamp 5) (Normal tt)
                (lit "s02") (threeChatsActive "s02") emptyWindow)
      as (_ & _ & H).
    destruct H as (Hs & _ & Ha & _); [vm_compute; discriminate|].
    split; [rewrite Hs; vm_compute; reflexivity|].
    rewrite Ha; reflexivity.
  - destruct (handleDeleteSession_spec (lit "u1") (stamp 5) (Normal tt)
                (lit "s00") (threeChatsActive "s02") emptyWindow)
      as (_ & _ & H).
    destruct H as (Hs & _ & _ & Ha); [vm_compute; discriminate|].
    split; [rewrite Hs; vm_compute; reflexivity|].
    rewrite Ha; [reflexivity|]. vm_compute. discriminate.
Defined.

Section Updating.

Variables now sessionId : jsstring.
Variable updater : list ChatMessage -> list ChatMessage.

Lemma updateOne_other (session : ChatSession) :
  sess_id session <> sessionId ->
  updateOne now sessionId updater session = session.
Proof.
  intros H. unfold updateOne. apply jseqb_neq in H. now rewrite H.
Qed.

Lemma updateOne_target (session : ChatSession) :
  sess_id session = sessionId ->
  updateOne now sessionId updater session
  = {| sess_id := sess_id session;
       sess_title := deriveTitle (updater (sess_messages session));
       sess_messages := updater (sess_messages session);
       sess_createdAt := sess_createdAt session;
       sess_updatedAt := now |}.
Proof.
  intros H. unfold updateOne. apply jseqb_eq in H. now rewrite H.
Qed.

Lemma updateSessionMessages_missing (st : AppState) :
  (forall session, In session (sessions st) -> sess_id session <> sessionId) ->
  updateSessionMessages now sessionId updater st = st.
Proof.
  intros H. unfold updateSessionMessages. destruct st as [l a t]. cbn in *.
  f_equal. induction l as [|s l IH]; [reflexivity|]. cbn.
  rewrite updateOne_other by (apply H; now left).
  f_equal. apply IH. intros x Hx. apply H. now right.
Qed.

End Updating.

(** C8. [appendMessage] (that is [updateSessionMessages] with the
    appending updater) returns a state in every case. When no session
    has the identifier, the state is returned unchanged. In general the
    collection keeps its length and order and the active pointer is
    unchanged; a session with another identifier is unchanged; a
    session with the identifier keeps its identifier and creation time,
    gets the message appended to its messages, its title recomputed by
    [deriveTitle] from the new messages and [updatedAt] set to the
    current time. *)
Theorem appendMessage_spec (now sessionId : jsstring) (message : ChatMessage)
  (st : AppState) :
  let st' := appendMessage now sessionId message st in
  ((forall session, In session (sessions st) -> sess_id session <> sessionId)
   -> st' = st)
  /\ length (sessions st') = length (sessions st)
  /\ activeSessionId st' = activeSessionId st
  /\ (forall i session, nth_error (sessions st) i = Some session ->
        exists session',
          nth_error (sessions st') i = Some session'
          /\ (sess_id session <> sessionId -> session' = session)
          /\ (sess_id session = sessionId ->
                sess_id session' = sess_id session
                /\ sess_messages session' = sess_messages session ++ [message]
                /\ sess_title session'
                   = deriveTitle (sess_messages session ++ [message])
                /\ sess_updatedAt session' = now
                /\ sess_createdAt session' = sess_createdAt session)).
Proof.
  cbv zeta. unfold appendMessage.
  split; [apply updateSessionMessages_missing|].
  cbn [updateSessionMessages sessions activeSessionId].
  split; [apply length_map|]. split; [reflexivity|].
  intros i session Hi.
  exists (updateOne now sessionId (fun messages => messages ++ [message]) session).
  split; [now apply map_nth_error|].
  split.
  - apply updateOne_other.
  - intros H. rewrite updateOne_target by exact H. now repeat split.
Qed.

Lemma appendMessage_spec_witness :
  appendMessage (stamp 7) (lit "gone")
    (createMessage (lit "m9") (stamp 7) role_user (lit "Hi")) (newChats 3)
  = newChats 3
  /\ exists session',
       nth_error
         (sessions (appendMessage (stamp 7) (lit "s01")
            (createMessage (lit "m9") (stamp 7) role_user (lit "Hi"))
            (newChats 3))) 1 = Some session'
       /\ sess_title session' = lit "Hi"
       /\ sess_updatedAt session' = stamp 7
       /\ length (sess_messages session') = 1.
Proof.
  split.
  - apply (appendMessage_spec (stamp 7) (lit "gone")
             (createMessage (lit "m9") (stamp 7) role_user (lit "Hi"))
             (newChats 3)).
    intros session Hs. cbn in Hs.
    destruct Hs as [<-|[<-|[<-|[]]]]; vm_compute; discriminate.
  - destruct (appendMessage_spec (stamp 7) (lit "s01")
                (createMessage (lit "m9") (stamp 7) role_user (lit "Hi"))
                (newChats 3)) as (_ & _ & _ & H).
    destruct (H 1 (createEmptySession (lit "s01") (stamp 1)) eq_refl)
      as (session' & Hn & _ & Ht).
    exists session'. split; [exact Hn|].
    destruct (Ht eq_refl) as (_ & Hm & Htitle & Hu & _).
    rewrite Htitle, Hu, Hm. repeat split.
Defined.

(* ================================================================== *)
(** * Further properties *)

(** ** Titles *)

Lemma find_app_found {A} (p : A -> bool) (l l' : list A) (x : A) :
  find p l = Some x -> find p (l ++ l') = Some x.
Proof.
  induction l as [|y l IH]; simpl; [discriminate|].
  destruct (p y); auto.
Qed.

Lemma find_app_missing {A} (p : A -> bool) (l l' : list A) :
  find p l = None -> find p (l ++ l') = find p l'.
Proof.
  induction l as [|y l IH]; simpl; [reflexivity|].
  destruct (p y); [discriminate | exact IH].
Qed.

Lemma find_user_some (M : list ChatMessage) :
  hasUser M ->
  exists m, find (fun message => jseqb (msg_role message) role_user) M = Some m.
Proof.
  intros (m & Hm & Hr).
  destruct (find _ M) as [x|] eqn:E; [now exists x|].
  exfalso. apply (find_none _ _ E) in Hm.
  apply jseqb_neq in Hm. contradiction.
Qed.

Lemma find_user_none (M : list ChatMessage) :
  noUser M ->
  find (fun message => jseqb (msg_role message) role_user) M = None.
Proof.
  intros H. destruct (find _ M) as [x|] eqn:E; [|reflexivity].
  apply find_some in E as [Hx Hr]. apply jseqb_eq in Hr.
  exfalso. exact (H x Hx Hr).
Qed.

Lemma deriveTitle_app_hasUser (M M' : list ChatMessage) :
  hasUser M -> deriveTitle (M ++ M') = deriveTitle M.
Proof.
  unfold deriveTitle. intros H.
  destruct (find_user_some H) as [m Hm].
  now rewrite (find_app_found _ _ M' Hm), Hm.
Qed.

Lemma deriveTitle_app_noUser (M M' : list ChatMessage) :
  noUser M -> deriveTitle (M ++ M') = deriveTitle M'.
Proof.
  unfold deriveTitle. intros H.
  now rewrite (find_app_missing _ _ M' (find_user_none H)).
Qed.

(** X1. The title is decided by the first user message: once the
    sequence holds a user message, whatever is appended leaves the
    title as it is; and messages that come before any user message do
    not count. *)
Theorem deriveTitle_first_user_decides (M M' : list ChatMessage) :
  (hasUser M -> deriveTitle (M ++ M') = deriveTitle M)
  /\ (noUser M -> deriveTitle (M ++ M') = deriveTitle M').
Proof.
  split; [apply deriveTitle_app_hasUser | apply deriveTitle_app_noUser].
Qed.

Lemma deriveTitle_first_user_decides_witness :
  deriveTitle
    (saysNewChat
     ++ [createMessage (lit "m2") (stamp 1) role_user (lit "Second question")])
  = NEW_CHAT
  /\ deriveTitle
       ([createMessage (lit "m0") (stamp 0) role_assistant (lit "Welcome")]
        ++ [createMessage (lit "m2") (stamp 1) role_user (lit "Second question")])
     = lit "Second question".
Proof.
  split.
  - rewrite (proj1 (deriveTitle_first_user_decides saysNewChat _)).
    + reflexivity.
    + eexists. split; [now left | reflexivity].
  - rewrite (proj2 (deriveTitle_first_user_decides _ _)).
    + reflexivity.
    + intros m [<-|[]]. vm_compute. discriminate.
Defined.

Lemma singleSpaced_collapse (s : jsstring) :
  singleSpaced (collapseWhitespace s) = true.
Proof.
  induction s as [|c r IH]; [reflexivity|].
  destruct (isWhiteSpace c) eqn:Hc.
  - destruct r as [|c' r'].
    + simpl. rewrite Hc. reflexivity.
    + destruct (isWhiteSpace c') eqn:Hc'.
      * now rewrite collapse_white_white.
      * rewrite collapse_white_black by assumption.
        rewrite collapse_cons_black in * by assumption.
        cbn [singleSpaced] in *. rewrite Hc' in *. cbn in *. exact IH.
  - rewrite collapse_cons_black by assumption.
    cbn [singleSpaced]. now rewrite Hc, IH.
Qed.

Lemma singleSpaced_firstn (n : nat) (s : jsstring) :
  singleSpaced s = true -> singleSpaced (firstn n s) = true.
Proof.
  revert s. induction n as [|n IH]; intros s; [reflexivity|].
  destruct s as [|c r]; [reflexivity|].
  cbn [firstn singleSpaced]. intros H.
  apply andb_true_iff in H as [Hc Hr]. rewrite (IH _ Hr), andb_true_r.
  destruct (isWhiteSpace c); cbn in *; trivial.
  destruct (N.eqb c SPACE); cbn in *; [|discriminate].
  destruct r as [|c' r']; [now destruct n|].
  destruct n; [reflexivity | exact Hc].
Qed.

Lemma singleSpaced_snoc (s : jsstring) (e : N) :
  isWhiteSpace e = false ->
  singleSpaced s = true -> singleSpaced (s ++ [e]) = true.
Proof.
  intros He. induction s as [|c r IH]; intros H.
  - simpl. now rewrite He.
  - change ((c :: r) ++ [e]) with (c :: (r ++ [e])).
    cbn [singleSpaced] in H |- *.
    apply andb_true_iff in H as [Hc Hr].
    rewrite (IH Hr), andb_true_r.
    destruct (isWhiteSpace c); cbn in *; trivial.
    destruct (N.eqb c SPACE); cbn in *; [|discriminate].
    destruct r as [|c' r']; cbn; [now rewrite He | exact Hc].
Qed.

Lemma trimStart_head (s : jsstring) :
  match trimStart s with [] => true | c :: _ => negb (isWhiteSpace c) end = true.
Proof.
  induction s as [|c r IH]; [reflexivity|]. simpl.
  destruct (isWhiteSpace c) eqn:Hc; [exact IH | now rewrite Hc].
Qed.

Lemma trimEnd_head (s : jsstring) :
  match s with [] => true | c :: _ => negb (isWhiteSpace c) end = true ->
  match trimEnd s with [] => true | c :: _ => negb (isWhiteSpace c) end = true.
Proof.
  destruct s as [|c r]; [trivial|]. intros H.
  apply negb_true_iff in H. rewrite (trimEnd_cons_black c r H).
  now rewrite H.
Qed.

Lemma collapse_head (s : jsstring) :
  match s with [] => true | c :: _ => negb (isWhiteSpace c) end = true ->
  match collapseWhitespace s with
  | [] => true
  | c :: _ => negb (isWhiteSpace c)
  end = true.
Proof.
  destruct s as [|c r]; [trivial|]. intros H.
  apply negb_true_iff in H. rewrite (collapse_cons_black c r H).
  now rewrite H.
Qed.

Lemma titleOfContent_tidy (content : jsstring) :
  tidyTitle (titleOfContent content) = true.
Proof.
  unfold titleOfContent, tidyTitle.
  pose proof (collapse_head _ (trimEnd_head _ (trimStart_head content))) as Hh.
  pose proof (singleSpaced_collapse (trim content)) as Hs.
  fold (trim content) in Hh.
  destruct (length (collapseWhitespace (trim content)) <=? 45) eqn:E.
  - now rewrite Hh, Hs.
  - apply Nat.leb_gt in E.
    rewrite singleSpaced_snoc, andb_true_r;
      [| reflexivity | now apply singleSpaced_firstn].
    destruct (collapseWhitespace (trim content)) as [|c t]; [cbn in E; lia|].
    exact Hh.
Qed.

(** X2. A derived title fits on one line: it does not start with white
    space, and the only white space in it are single plain spaces (no
    tab, no line break, no two spaces in a row). *)
Theorem deriveTitle_tidy (M : list ChatMessage) :
  tidyTitle (deriveTitle M) = true.
Proof.
  unfold deriveTitle. destruct (find _ M) as [m|].
  - apply titleOfContent_tidy.
  - reflexivity.
Qed.

(** ** Trimming *)

Lemma trimStart_fixed (s : jsstring) :
  match s with [] => true | c :: _ => negb (isWhiteSpace c) end = true ->
  trimStart s = s.
Proof.
  destruct s as [|c r]; [reflexivity|]. simpl.
  intros H. apply negb_true_iff in H. now rewrite H.
Qed.

Lemma trimEnd_idem (s : jsstring) : trimEnd (trimEnd s) = trimEnd s.
Proof.
  induction s as [|c r IH]; [reflexivity|].
  destruct (trimEnd r) as [|d t] eqn:E.
  - simpl. rewrite E. destruct (isWhiteSpace c) eqn:Hc; [reflexivity|].
    simpl. now rewrite Hc.
  - rewrite (trimEnd_cons_kept c r) by congruence. rewrite E.
    rewrite (trimEnd_cons_kept c (d :: t)) by (rewrite IH; discriminate).
    now rewrite IH.
Qed.

Lemma trimEnd_trim (s : jsstring) : trimEnd (trim s) = trim s.
Proof. unfold trim. apply trimEnd_idem. Qed.

Lemma trim_idem (s : jsstring) : trim (trim s) = trim s.
Proof.
  unfold trim at 1.
  rewrite (trimStart_fixed (trim s)); [apply trimEnd_trim|].
  unfold trim. apply trimEnd_head, trimStart_head.
Qed.

Lemma trimEnd_app_kept (a b : jsstring) :
  trimEnd b <> [] -> trimEnd (a ++ b) = a ++ trimEnd b.
Proof.
  intros H. induction a as [|c a IH]; [reflexivity|].
  change ((c :: a) ++ b) with (c :: (a ++ b)).
  rewrite trimEnd_cons_kept; rewrite IH; [reflexivity|].
  destruct a; [exact H | discriminate].
Qed.

Lemma titleOfContent_trim (content : jsstring) :
  titleOfContent (trim content) = titleOfContent content.
Proof. unfold titleOfContent. now rewrite trim_idem. Qed.

(** ** The synthesized reply *)

Lemma reply_shape (prompt : jsstring) :
  truthy (trim prompt) = true ->
  simulateAssistantResponse prompt
  = (lit "Here's a quick reflection on your last message:" ++ NEWLINE)
    ++ (lit "> " ++ trim prompt)
    ++ (NEWLINE ++ NEWLINE ++ replyClosing).
Proof.
  intros H. unfold simulateAssistantResponse. rewrite H.
  cbn [negb joinWith]. unfold replyClosing.
  now rewrite <- !app_assoc.
Qed.

Lemma simulateAssistantResponse_trim (prompt : jsstring) :
  simulateAssistantResponse (trim prompt) = simulateAssistantResponse prompt.
Proof. unfold simulateAssistantResponse. now rewrite trim_idem. Qed.

Lemma simulateAssistantResponse_trimEnd (prompt : jsstring) :
  trimEnd (simulateAssistantResponse prompt) = simulateAssistantResponse prompt.
Proof.
  destruct (truthy (trim prompt)) eqn:E.
  - rewrite (reply_shape prompt E), !app_assoc.
    assert (Hc : trimEnd replyClosing = replyClosing)
      by (vm_compute; reflexivity).
    rewrite trimEnd_app_kept; rewrite Hc; [reflexivity|].
    intros H. vm_compute in H. discriminate H.
  - unfold simulateAssistantResponse. rewrite E. reflexivity.
Qed.

(** X3. The synthesized reply is the fixed greeting for a blank
    prompt; otherwise it quotes the trimmed prompt on a line of its
    own. In both cases it depends on the trimmed prompt only, is not
    blank, and [createMessage] stores it whole. *)
Theorem simulateAssistantResponse_spec (prompt : jsstring) :
  (blank prompt ->
     simulateAssistantResponse prompt = lit "I'm ready whenever you are!")
  /\ (~ blank prompt ->
        substring (NEWLINE ++ lit "> " ++ trim prompt ++ NEWLINE)
          (simulateAssistantResponse prompt))
  /\ simulateAssistantResponse (trim prompt) = simulateAssistantResponse prompt
  /\ truthy (trim (simulateAssistantResponse prompt)) = true
  /\ (forall uuid now,
        msg_content (createMessage uuid now role_assistant
                       (simulateAssistantResponse prompt))
        = simulateAssistantResponse prompt).
Proof.
  split.
  { intros H. apply trim_blank in H.
    unfold simulateAssistantResponse. now rewrite H. }
  split.
  { intros H.
    assert (E : truthy (trim prompt) = true).
    { destruct (truthy (trim prompt)) eqn:E; [reflexivity|].
      apply trim_blank in E. contradiction. }
    rewrite (reply_shape prompt E).
    exists (lit "Here's a quick reflection on your last message:"),
           (NEWLINE ++ replyClosing).
    now rewrite <- !app_assoc. }
  split; [apply simulateAssistantResponse_trim|].
  split; [|intros; apply simulateAssistantResponse_trimEnd].
  unfold trim. rewrite trimStart_fixed.
  - rewrite simulateAssistantResponse_trimEnd. unfold simulateAssistantResponse.
    destruct (truthy (trim prompt)); reflexivity.
  - unfold simulateAssistantResponse.
    destruct (truthy (trim prompt)); reflexivity.
Qed.

Lemma simulateAssistantResponse_spec_witness :
  simulateAssistantResponse (lit "  ") = lit "I'm ready whenever you are!"
  /\ substring (NEWLINE ++ lit "> " ++ lit "Hi there" ++ NEWLINE)
       (simulateAssistantResponse (lit " Hi there  ")).
Proof.
  split.
  - destruct (simulateAssistantResponse_spec (lit "  ")) as (H & _).
    apply H. repeat constructor.
  - destruct (simulateAssistantResponse_spec (lit " Hi there  "))
      as (_ & H & _).
    apply H. intros Hb. apply trim_blank in Hb. discriminate Hb.
Defined.

(** ** Sending a message *)

Lemma updateOne_id (now sessionId : jsstring)
  (updater : list ChatMessage -> list ChatMessage) (session : ChatSession) :
  sess_id (updateOne now sessionId updater session) = sess_id session.
Proof.
  unfold updateOne. now destruct (negb (jseqb (sess_id session) sessionId)).
Qed.

Lemma idsOf_appendMessage (now sessionId : jsstring) (message : ChatMessage)
  (st : AppState) :
  idsOf (appendMessage now sessionId message st) = idsOf st.
Proof.
  unfold idsOf, appendMessage, updateSessionMessages. cbn [sessions].
  rewrite map_map. apply map_ext. intros s. apply updateOne_id.
Qed.

Lemma find_updateOne (now sessionId active : jsstring)
  (updater : list ChatMessage -> list ChatMessage) (l : list ChatSession) :
  find (fun session => jseqb (sess_id session) active)
    (map (updateOne now sessionId updater) l)
  = option_map (updateOne now sessionId updater)
      (find (fun session => jseqb (sess_id session) active) l).
Proof.
  induction l as [|s l IH]; [reflexivity|]. cbn [map find].
  rewrite updateOne_id. now destruct (jseqb (sess_id s) active).
Qed.

Lemma activeSession_some (st : AppState) (s : ChatSession) :
  activeSession st = Some s ->
  activeSessionId st = Some (sess_id s) /\ In s (sessions st).
Proof.
  unfold activeSession. destruct (activeSessionId st) as [a|]; [|discriminate].
  intros H. apply find_some in H as [Hin Hid]. apply jseqb_eq in Hid.
  now subst a.
Qed.

Lemma activeSession_appendMessage (now : jsstring) (message : ChatMessage)
  (st : AppState) (s : ChatSession) :
  activeSession st = Some s ->
  activeSession (appendMessage now (sess_id s) message st)
  = Some (withMessage now message s).
Proof.
  intros H. destruct (activeSession_some st H) as [Ha _].
  unfold activeSession in *. cbn [appendMessage updateSessionMessages
    activeSessionId sessions]. rewrite Ha in *.
  rewrite find_updateOne, H. cbn [option_map].
  now rewrite updateOne_target.
Qed.

Lemma createMessage_user (d : SendDraws) (input : jsstring) :
  createMessage (draw_messageId d) (draw_messageTime d) role_user (trim input)
  = userMessageOf d input.
Proof.
  unfold createMessage, userMessageOf. now rewrite trimEnd_trim.
Qed.

Lemma not_blank_truthy (s : jsstring) : ~ blank s -> truthy (trim s) = true.
Proof.
  intros H. destruct (truthy (trim s)) eqn:E; [reflexivity|].
  apply trim_blank in E. contradiction.
Qed.

(** X4. A blank input (empty, or white space only) is never sent:
    [handleSend] leaves the whole state and the store as they are. *)
Theorem handleSend_blank (d : SendDraws) (outcome : Completion unit)
  (ui : Composer) (window : option Env) :
  blank (inputValue ui) -> handleSend d outcome ui window = (ui, window).
Proof.
  intros H. apply trim_blank in H. unfold handleSend. now rewrite H.
Qed.

Lemma handleSend_blank_witness :
  handleSend sampleDraws (Normal tt) (typing "   " (newChats 2)) emptyWindow
  = (typing "   " (newChats 2), emptyWindow).
Proof.
  apply handleSend_blank. repeat constructor.
Defined.

Lemma handleSend_with_active (d : SendDraws) (outcome : Completion unit)
  (ui : Composer) (window : option Env) (active : jsstring) :
  ~ blank (inputValue ui) ->
  activeSessionId (appState ui) = Some active ->
  truthy active = true ->
  handleSend d outcome ui window
  = ({| appState := appendMessage (draw_updateTime d) active
                 (userMessageOf d (inputValue ui)) (appState ui);
        inputValue := [];
        isTyping := true;
        emojiOpen := false;
        pendingReply := Some (active, trim (inputValue ui)) |}, window).
Proof.
  intros Hb Ha Ht. unfold handleSend.
  rewrite (not_blank_truthy Hb), Ha, Ht. cbn [negb].
  now rewrite createMessage_user.
Qed.

(** X5. With a text that is not blank and an active session [s] in the
    collection, [handleSend] appends to [s] one user message whose
    content is the trimmed text, derives the title again and refreshes
    [updatedAt]; the identifiers of the collection, their order, the
    active pointer and the store are unchanged; the input box is
    cleared and a reply to the trimmed text is pending for [s]. *)
Theorem handleSend_to_active_session (d : SendDraws) (outcome : Completion unit)
  (ui : Composer) (window : option Env) (s : ChatSession) :
  ~ blank (inputValue ui) ->
  activeSession (appState ui) = Some s ->
  truthy (sess_id s) = true ->
  let ui' := fst (handleSend d outcome ui window) in
  activeSession (appState ui')
  = Some (withMessage (draw_updateTime d) (userMessageOf d (inputValue ui)) s)
  /\ idsOf (appState ui') = idsOf (appState ui)
  /\ activeSessionId (appState ui') = activeSessionId (appState ui)
  /\ snd (handleSend d outcome ui window) = window
  /\ inputValue ui' = []
  /\ isTyping ui' = true
  /\ pendingReply ui' = Some (sess_id s, trim (inputValue ui)).
Proof.
  intros Hb Hs Ht. cbv zeta.
  destruct (activeSession_some _ Hs) as [Ha _].
  rewrite (handleSend_with_active d outcome ui window Hb Ha Ht).
  cbn [fst snd appState inputValue isTyping pendingReply].
  split; [now apply activeSession_appendMessage|].
  split; [apply idsOf_appendMessage|]. now repeat split.
Qed.

(** X6. When the active pointer names no session of the collection,
    [handleSend] changes no session: the text is dropped, although the
    input box is cleared, the typing indicator is switched on and a
    reply is scheduled. *)
Theorem handleSend_dangling_pointer (d : SendDraws) (outcome : Completion unit)
  (ui : Composer) (window : option Env) (active : jsstring) :
  ~ blank (inputValue ui) ->
  activeSessionId (appState ui) = Some active ->
  truthy active = true ->
  ~ In active (idsOf (appState ui)) ->
  let ui' := fst (handleSend d outcome ui window) in
  appState ui' = appState ui
  /\ inputValue ui' = []
  /\ isTyping ui' = true
  /\ pendingReply ui' = Some (active, trim (inputValue ui)).
Proof.
  intros Hb Ha Ht Hn. cbv zeta.
  rewrite (handleSend_with_active d outcome ui window Hb Ha Ht).
  cbn [fst appState inputValue isTyping pendingReply].
  split; [|now repeat split].
  apply updateSessionMessages_missing. intros session Hs Hid.
  apply Hn. unfold idsOf. rewrite <- Hid. now apply in_map.
Qed.

Lemma handleSend_fresh_session (d : SendDraws) (outcome : Completion unit)
  (ui : Composer) (window : option Env) :
  ~ blank (inputValue ui) ->
  orElse (activeSessionId (appState ui)) [] = [] ->
  ~ In (draw_sessionId d) (idsOf (appState ui)) ->
  let ui' := fst (handleSend d outcome ui window) in
  sessions (appState ui')
  = {| sess_id := draw_sessionId d;
       sess_title := titleOfContent (inputValue ui);
       sess_messages := [userMessageOf d (inputValue ui)];
       sess_createdAt := draw_sessionTime d;
       sess_updatedAt := draw_updateTime d |} :: sessions (appState ui)
  /\ activeSessionId (appState ui') = Some (draw_sessionId d)
  /\ snd (handleSend d outcome ui window)
     = writeActiveSession outcome (Some (draw_sessionId d)) window.
Proof.
  intros Hb Ha Hn. cbv zeta. unfold handleSend.
  rewrite (not_blank_truthy Hb). cbn [negb].
  assert (E : match activeSessionId (appState ui) with
              | Some active => truthy active
              | None => false
              end = false).
  { unfold orElse in Ha. destruct (activeSessionId (appState ui)) as [a|]; trivial.
    destruct (truthy a) eqn:Et; trivial. subst a. discriminate Et. }
  assert (Hrest : map (updateOne (draw_updateTime d) (draw_sessionId d)
                         (fun messages => messages ++ [userMessageOf d (inputValue ui)]))
                    (sessions (appState ui)) = sessions (appState ui)).
  { rewrite <- (map_id (sessions (appState ui))) at 2. apply map_ext_in.
    intros s Hs. apply updateOne_other. intros Hid. apply Hn.
    unfold idsOf. rewrite <- Hid. now apply in_map. }
  rewrite createMessage_user.
  destruct (activeSessionId (appState ui)) as [a|];
    [rewrite E|];
    cbn [fst snd appState appendMessage updateSessionMessages sessions
         activeSessionId createEmptySession sess_id map];
    rewrite Hrest, updateOne_target by reflexivity;
    cbn [createEmptySession sess_id sess_messages sess_createdAt appState
         List.app];
    unfold deriveTitle; cbn [find userMessageOf msg_role msg_content];
    rewrite jseqb_refl;
    change (msg_content (userMessageOf d (inputValue ui)))
      with (trim (inputValue ui));
    rewrite titleOfContent_trim; now repeat split.
Qed.

(** X7. With a text that is not blank and no active session (the
    pointer is [null] or empty), [handleSend] puts a new session in
    front of the collection, unchanged otherwise: it holds the user
    message alone, its title is the title derived from the text, and it
    becomes active. The drawn identifier must be new. *)
Theorem handleSend_without_active (d : SendDraws) (outcome : Completion unit)
  (ui : Composer) (window : option Env) :
  ~ blank (inputValue ui) ->
  orElse (activeSessionId (appState ui)) [] = [] ->
  ~ In (draw_sessionId d) (idsOf (appState ui)) ->
  let ui' := fst (handleSend d outcome ui window) in
  sessions (appState ui')
  = {| sess_id := draw_sessionId d;
       sess_title := titleOfContent (inputValue ui);
       sess_messages := [userMessageOf d (inputValue ui)];
       sess_createdAt := draw_sessionTime d;
       sess_updatedAt := draw_updateTime d |} :: sessions (appState ui)
  /\ activeSessionId (appState ui') = Some (draw_sessionId d)
  /\ snd (handleSend d outcome ui window)
     = writeActiveSession outcome (Some (draw_sessionId d)) window.
Proof.
  intros Hb Ha Hn.
  exact (@handleSend_fresh_session d outcome ui window Hb Ha Hn).
Qed.

Lemma handleSend_to_active_session_witness :
  activeSession
    (appState (fst (handleSend sampleDraws (Normal tt)
                      (typing " Hello   world " (threeChatsActive "s01"))
                      emptyWindow)))
  = Some {| sess_id := lit "s01";
            sess_title := lit "Hello world";
            sess_messages :=
              [ {| msg_id := lit "u1"; msg_role := role_user;
                   msg_content := lit "Hello   world";
                   msg_createdAt := stamp 10 |} ];
            sess_createdAt := stamp 1;
            sess_updatedAt := stamp 10 |}.
Proof.
  destruct (@handleSend_to_active_session sampleDraws (Normal tt)
              (typing " Hello   world " (threeChatsActive "s01")) emptyWindow
              (createEmptySession (lit "s01") (stamp 1))) as (H & _).
  - intros Hb. apply trim_blank in Hb. discriminate Hb.
  - reflexivity.
  - reflexivity.
  - rewrite H. reflexivity.
Defined.

Lemma handleSend_dangling_pointer_witness :
  appState (fst (handleSend sampleDraws (Normal tt)
                   (typing "Hello" (threeChatsActive "zz")) emptyWindow))
  = threeChatsActive "zz".
Proof.
  destruct (@handleSend_dangling_pointer sampleDraws (Normal tt)
              (typing "Hello" (threeChatsActive "zz")) emptyWindow (lit "zz"))
    as (H & _).
  - intros Hb. apply trim_blank in Hb. discriminate Hb.
  - reflexivity.
  - reflexivity.
  - intros Hin. vm_compute in Hin.
    destruct Hin as [Hin|[Hin|[Hin|[]]]]; discriminate Hin.
  - exact H.
Defined.

Lemma handleSend_without_active_witness :
  sessions (appState (fst (handleSend sampleDraws (Normal tt)
                             (typing "Hello" blankState) emptyWindow)))
  = [ {| sess_id := lit "n1";
         sess_title := lit "Hello";
         sess_messages :=
           [ {| msg_id := lit "u1"; msg_role := role_user;
                msg_content := lit "Hello"; msg_createdAt := stamp 10 |} ];
         sess_createdAt := stamp 10;
         sess_updatedAt := stamp 10 |} ].
Proof.
  destruct (@handleSend_without_active sampleDraws (Normal tt)
              (typing "Hello" blankState) emptyWindow) as (H & _).
  - intros Hb. apply trim_blank in Hb. discriminate Hb.
  - reflexivity.
  - intros [].
  - rewrite H. reflexivity.
Defined.

(** X8. A send to an existing active session followed by the firing of
    its reply timer leaves that session with exactly two more
    messages, the user message and then the assistant message that
    answers the text; the title is the one the send had set (the reply
    does not change it) and the typing indicator is off. *)
Theorem reply_follows_send (d : SendDraws) (outcome : Completion unit)
  (ui : Composer) (window : option Env) (s : ChatSession)
  (uuid nowMessage nowUpdate : jsstring) :
  ~ blank (inputValue ui) ->
  activeSession (appState ui) = Some s ->
  truthy (sess_id s) = true ->
  let sent := fst (handleSend d outcome ui window) in
  let done := deliverReply uuid nowMessage nowUpdate sent in
  let userMessage := userMessageOf d (inputValue ui) in
  let reply :=
    {| msg_id := uuid; msg_role := role_assistant;
       msg_content := simulateAssistantResponse (inputValue ui);
       msg_createdAt := nowMessage |} in
  activeSession (appState done)
  = Some {| sess_id := sess_id s;
            sess_title := deriveTitle (sess_messages s ++ [userMessage]);
            sess_messages := sess_messages s ++ [userMessage; reply];
            sess_createdAt := sess_createdAt s;
            sess_updatedAt := nowUpdate |}
  /\ option_map sess_title (activeSession (appState done))
     = option_map sess_title (activeSession (appState sent))
  /\ isTyping done = false
  /\ pendingReply done = None.
Proof.
  intros Hb Hs Ht. cbv zeta.
  destruct (activeSession_some _ Hs) as [Ha _].
  rewrite (@handleSend_with_active d outcome ui window (sess_id s) Hb Ha Ht).
  unfold deliverReply. cbn [fst appState pendingReply isTyping].
  pose proof (@activeSession_appendMessage (draw_updateTime d)
                (userMessageOf d (inputValue ui)) _ _ Hs) as H1.
  pose proof (@activeSession_appendMessage nowUpdate
                (createMessage uuid nowMessage role_assistant
                   (simulateAssistantResponse (trim (inputValue ui))))
                _ _ H1) as H2.
  cbn [withMessage sess_id] in H2. rewrite H2, H1.
  unfold withMessage, createMessage.
  cbn [sess_id sess_messages sess_createdAt sess_title option_map].
  rewrite simulateAssistantResponse_trim, simulateAssistantResponse_trimEnd.
  rewrite deriveTitle_app_hasUser, <- app_assoc.
  - now repeat split.
  - exists (userMessageOf d (inputValue ui)). split; [|reflexivity].
    apply in_or_app. right. now left.
Qed.

Lemma reply_follows_send_witness :
  option_map (fun s => (sess_title s, map msg_role (sess_messages s)))
    (activeSession
       (appState
          (deliverReply (lit "a1") (stamp 11) (stamp 11)
             (fst (handleSend sampleDraws (Normal tt)
                     (typing "Hello" (threeChatsActive "s01")) emptyWindow)))))
  = Some (lit "Hello", [role_user; role_assistant]).
Proof.
  destruct (@reply_follows_send sampleDraws (Normal tt)
              (typing "Hello" (threeChatsActive "s01")) emptyWindow
              (createEmptySession (lit "s01") (stamp 1))
              (lit "a1") (stamp 11) (stamp 11)) as (H & _).
  - intros Hb. apply trim_blank in Hb. discriminate Hb.
  - reflexivity.
  - reflexivity.
  - rewrite H. reflexivity.
Defined.

(** ** Invariants of the controller *)

Lemma truthy_titleOfContent (content : jsstring) :
  truthy (trim content) = true -> truthy (titleOfContent content) = true.
Proof.
  intros H. destruct (titleOfContent content) eqn:E; [|reflexivity].
  apply titleOfContent_empty, trim_blank in E. congruence.
Qed.

Lemma validMessage_user_content (m : ChatMessage) :
  validMessage m = true -> msg_role m = role_user ->
  truthy (trim (msg_content m)) = true.
Proof.
  unfold validMessage. intros H Hr.
  apply andb_true_iff in H as [_ H].
  apply jseqb_eq in Hr. now rewrite Hr in H.
Qed.

Lemma deriveTitle_truthy (M : list ChatMessage) :
  forallb validMessage M = true -> truthy (deriveTitle M) = true.
Proof.
  intros H. unfold deriveTitle.
  destruct (find _ M) as [m|] eqn:E; [|reflexivity].
  apply find_some in E as [Hin Hr]. apply jseqb_eq in Hr.
  apply truthy_titleOfContent, validMessage_user_content; trivial.
  rewrite forallb_forall in H. now apply H.
Qed.

Lemma validSession_createEmptySession (uuid now : jsstring) :
  truthy uuid = true -> truthy now = true ->
  validSession (createEmptySession uuid now) = true.
Proof.
  intros Hu Hn. unfold validSession, createEmptySession.
  cbn [sess_id sess_title sess_createdAt sess_updatedAt sess_messages].
  now rewrite Hu, Hn.
Qed.

Lemma validSession_id (s : ChatSession) :
  validSession s = true -> truthy (sess_id s) = true.
Proof.
  unfold validSession. intros H.
  repeat (apply andb_true_iff in H as [H _]). exact H.
Qed.

Lemma validSession_withMessage (now : jsstring) (m : ChatMessage)
  (s : ChatSession) :
  validSession s = true -> validMessage m = true -> truthy now = true ->
  validSession (withMessage now m s) = true.
Proof.
  unfold validSession, withMessage.
  cbn [sess_id sess_title sess_createdAt sess_updatedAt sess_messages].
  intros H Hm Hn.
  apply andb_true_iff in H as [H Hms].
  apply andb_true_iff in H as [H _].
  apply andb_true_iff in H as [H Hc].
  apply andb_true_iff in H as [Hid _].
  assert (Hall : forallb validMessage (sess_messages s ++ [m]) = true).
  { rewrite forallb_app, Hms. cbn. now rewrite Hm. }
  now rewrite Hid, Hc, Hn, Hall, (@deriveTitle_truthy _ Hall).
Qed.

Lemma updateOne_append (now sessionId : jsstring) (m : ChatMessage)
  (s : ChatSession) :
  updateOne now sessionId (fun messages => messages ++ [m]) s
  = if jseqb (sess_id s) sessionId then withMessage now m s else s.
Proof.
  unfold updateOne, withMessage. now destruct (jseqb (sess_id s) sessionId).
Qed.

Lemma Sound_appendMessage (now sessionId : jsstring) (m : ChatMessage)
  (st : AppState) :
  Sound st -> validMessage m = true -> truthy now = true ->
  Sound (appendMessage now sessionId m st).
Proof.
  intros [Hv Hd] Hm Hn. split.
  - unfold appendMessage, updateSessionMessages. cbn [sessions].
    rewrite forallb_forall in *. intros x Hx.
    apply in_map_iff in Hx as (s & <- & Hs).
    rewrite updateOne_append.
    destruct (jseqb (sess_id s) sessionId); [|now apply Hv].
    apply validSession_withMessage; auto.
  - now rewrite idsOf_appendMessage.
Qed.

Lemma activeValid_appendMessage (now sessionId : jsstring) (m : ChatMessage)
  (st : AppState) :
  activeValid st -> activeValid (appendMessage now sessionId m st).
Proof.
  intros (id & Ha & Hin). exists id.
  rewrite idsOf_appendMessage. now split.
Qed.

Lemma others_NoDup (sessionId : jsstring) (collection : list ChatSession) :
  NoDup (map sess_id collection) ->
  NoDup (map sess_id (others sessionId collection)).
Proof.
  unfold others. induction collection as [|s rest IH]; [trivial|].
  cbn [map filter]. intros Hd.
  apply NoDup_cons_iff in Hd as [Hs Hrest].
  destruct (negb (jseqb (sess_id s) sessionId)); [|now apply IH].
  cbn [map]. apply NoDup_cons; [|now apply IH].
  intros Hin. apply Hs.
  apply in_map_iff in Hin as (o & <- & Ho).
  apply in_map. now apply filter_In in Ho as [Ho _].
Qed.

Lemma forallb_filter_keeps {A} (q p : A -> bool) (l : list A) :
  forallb q l = true -> forallb q (filter p l) = true.
Proof.
  rewrite !forallb_forall. intros H x Hx.
  apply filter_In in Hx as [Hx _]. now apply H.
Qed.

(** X9. "New chat" with a new, non-empty identifier and a non-empty
    time keeps the collection sound (every session valid, identifiers
    distinct) and leaves the active pointer on a session of the
    collection: the new one. *)
Theorem handleNewChat_healthy (uuid now : jsstring) (outcome : Completion unit)
  (st : AppState) (window : option Env) :
  Sound st ->
  truthy uuid = true -> truthy now = true ->
  ~ In uuid (idsOf st) ->
  let st' := fst (handleNewChat uuid now outcome st window) in
  Healthy st'
  /\ activeSession st' = Some (createEmptySession uuid now)
  /\ sessions st' = createEmptySession uuid now :: sessions st.
Proof.
  intros [Hv Hd] Hu Hn Hf. cbv zeta. unfold handleNewChat. cbn [fst].
  split; [|split; [|reflexivity]].
  - split; [|split].
    + exists uuid. split; [reflexivity | now left].
    + cbn [sessions forallb].
      now rewrite validSession_createEmptySession.
    + unfold idsOf. cbn [sessions map createEmptySession sess_id].
      now constructor.
  - unfold activeSession.
    cbn [activeSessionId sessions find createEmptySession sess_id].
    now rewrite jseqb_refl.
Qed.

Lemma handleNewChat_healthy_witness :
  Healthy (fst (handleNewChat (lit "s03") (stamp 3) (Normal tt)
                  (threeChatsActive "s00") emptyWindow)).
Proof.
  apply (@handleNewChat_healthy (lit "s03") (stamp 3) (Normal tt)
           (threeChatsActive "s00") emptyWindow).
  - split; [reflexivity|]. vm_compute.
    repeat constructor; intros H;
      repeat (destruct H as [H|H]; [discriminate H|]); exact H.
  - reflexivity.
  - reflexivity.
  - intros H. vm_compute in H.
    repeat (destruct H as [H|H]; [discriminate H|]). exact H.
Defined.

(** X10. Deleting a session keeps a healthy state healthy: the
    collection stays sound and is never empty, and the active pointer
    still names one of its sessions, whichever session is deleted. *)
Theorem handleDeleteSession_healthy (uuid now : jsstring)
  (outcome : Completion unit) (sessionId : jsstring) (st : AppState)
  (window : option Env) :
  Healthy st ->
  truthy uuid = true -> truthy now = true ->
  let st' := fst (handleDeleteSession uuid now outcome sessionId st window) in
  Healthy st' /\ sessions st' <> [].
Proof.
  intros ((a & Ha & Hin) & Hv & Hd) Hu Hn. cbv zeta.
  unfold handleDeleteSession. fold (others sessionId (sessions st)).
  pose proof (others_spec sessionId (sessions st)) as Ho.
  assert (Hv' : forallb validSession (others sessionId (sessions st)) = true)
    by now apply forallb_filter_keeps.
  assert (Hd' : NoDup (map sess_id (others sessionId (sessions st))))
    by now apply others_NoDup.
  destruct (others sessionId (sessions st)) as [|first rest] eqn:E.
  - cbn [fst]. split; [|discriminate]. split; [|split].
    + exists uuid. split; [reflexivity | now left].
    + cbn [sessions forallb]. now rewrite validSession_createEmptySession.
    + unfold idsOf. cbn. constructor; [intros [] | constructor].
  - rewrite Ha. destruct (jseqb a sessionId) eqn:Eq; cbn [fst].
    + split; [|discriminate]. split; [|now split].
      exists (sess_id first). split; [reflexivity | now left].
    + split; [|discriminate]. split; [|now split].
      exists a. split; [reflexivity|].
      unfold idsOf in *. cbn [sessions].
      apply in_map_iff in Hin as (s & <- & Hs).
      apply in_map. apply Ho. split; [exact Hs|]. now apply jseqb_neq.
Qed.

Lemma handleDeleteSession_healthy_witness :
  Healthy (fst (handleDeleteSession (lit "u1") (stamp 5) (Normal tt)
                  (lit "s02") (threeChatsActive "s02") emptyWindow)).
Proof.
  apply (@handleDeleteSession_healthy (lit "u1") (stamp 5) (Normal tt)
           (lit "s02") (threeChatsActive "s02") emptyWindow).
  - split; [|split].
    + exists (lit "s02"). split; [reflexivity | now left].
    + reflexivity.
    + vm_compute.
      repeat constructor; intros H;
        repeat (destruct H as [H|H]; [discriminate H|]); exact H.
  - reflexivity.
  - reflexivity.
Defined.

Lemma validMessage_userMessageOf (d : SendDraws) (input : jsstring) :
  drawsPresent d = true -> truthy (trim input) = true ->
  validMessage (userMessageOf d input) = true.
Proof.
  unfold drawsPresent, validMessage, userMessageOf.
  cbn [msg_id msg_role msg_createdAt msg_content].
  intros H Ht.
  apply andb_true_iff in H as [H _].
  apply andb_true_iff in H as [H Hmt].
  apply andb_true_iff in H as [_ Hmi].
  now rewrite Hmi, Hmt, trim_idem, Ht, orb_true_r.
Qed.

Lemma drawsPresent_times (d : SendDraws) :
  drawsPresent d = true ->
  truthy (draw_sessionId d) = true /\ truthy (draw_sessionTime d) = true
  /\ truthy (draw_updateTime d) = true.
Proof.
  unfold drawsPresent. intros H.
  apply andb_true_iff in H as [H Hu].
  apply andb_true_iff in H as [H _].
  apply andb_true_iff in H as [H _].
  apply andb_true_iff in H as [Hs Ht]. now repeat split.
Qed.

Lemma activeValid_truthy (st : AppState) (a : jsstring) :
  forallb validSession (sessions st) = true ->
  In a (idsOf st) -> truthy a = true.
Proof.
  intros Hv Hin. apply in_map_iff in Hin as (s & <- & Hs).
  apply validSession_id. rewrite forallb_forall in Hv. now apply Hv.
Qed.

(** X11. [handleSend] keeps a healthy state healthy, whatever the
    input; and from a sound collection with no active session, a text
    that is not blank and a new identifier lead to a healthy state. In
    particular every title stays non-empty. Nothing drawn may be
    empty. *)
Theorem handleSend_healthy (d : SendDraws) (outcome : Completion unit)
  (ui : Composer) (window : option Env) :
  drawsPresent d = true ->
  Healthy (appState ui)
  \/ (Sound (appState ui)
      /\ orElse (activeSessionId (appState ui)) [] = []
      /\ ~ In (draw_sessionId d) (idsOf (appState ui))
      /\ ~ blank (inputValue ui)) ->
  Healthy (appState (fst (handleSend d outcome ui window))).
Proof.
  intros Hd [H|(Hs & Ha & Hf & Hb)].
  - destruct (truthy (trim (inputValue ui))) eqn:Et.
    + assert (Hb : ~ blank (inputValue ui)).
      { intros Hb. apply trim_blank in Hb. congruence. }
      destruct H as ((a & Ha & Hin) & Hv & Hn).
      rewrite (@handleSend_with_active d outcome ui window a Hb Ha
                 (@activeValid_truthy _ _ Hv Hin)).
      cbn [fst appState]. split.
      * apply activeValid_appendMessage. now exists a.
      * apply Sound_appendMessage; [now split | | apply (@drawsPresent_times d Hd)].
        now apply validMessage_userMessageOf.
    + unfold handleSend. now rewrite Et.
  - destruct (@handleSend_fresh_session d outcome ui window Hb Ha Hf)
      as (Hl & Hact & _).
    destruct Hs as [Hv Hn].
    destruct (@drawsPresent_times d Hd) as (Hi & Ht & Hu).
    split; [|split].
    + exists (draw_sessionId d). split; [exact Hact|].
      unfold idsOf. rewrite Hl. now left.
    + rewrite Hl. cbn [forallb]. rewrite Hv, andb_true_r.
      unfold validSession.
      cbn [sess_id sess_title sess_createdAt sess_updatedAt sess_messages
           forallb].
      rewrite Hi, Ht, Hu, truthy_titleOfContent, validMessage_userMessageOf;
        trivial; now apply not_blank_truthy.
    + unfold idsOf. rewrite Hl. cbn [map sess_id]. now constructor.
Qed.

Lemma handleSend_healthy_witness :
  Healthy (appState (fst (handleSend sampleDraws (Normal tt)
                            (typing "Hello" (threeChatsActive "s01"))
                            emptyWindow)))
  /\ Healthy (appState (fst (handleSend sampleDraws (Normal tt)
                               (typing "Hello" blankState) emptyWindow))).
Proof.
  split.
  - apply (@handleSend_healthy sampleDraws (Normal tt)
             (typing "Hello" (threeChatsActive "s01")) emptyWindow);
      [reflexivity|].
    left. split; [|split].
    + exists (lit "s01"). split; [reflexivity | right; now left].
    + reflexivity.
    + vm_compute.
      repeat constructor; intros H;
        repeat (destruct H as [H|H]; [discriminate H|]); exact H.
  - apply (@handleSend_healthy sampleDraws (Normal tt)
             (typing "Hello" blankState) emptyWindow); [reflexivity|].
    right. split; [|split; [|split]].
    + split; [reflexivity | constructor].
    + reflexivity.
    + intros [].
    + intros Hb. apply trim_blank in Hb. discriminate Hb.
Defined.

(** X12. The reply timer keeps a healthy state healthy: the assistant
    message it appends is valid, and titles stay non-empty. *)
Theorem deliverReply_healthy (uuid nowMessage nowUpdate : jsstring)
  (ui : Composer) :
  truthy uuid = true -> truthy nowMessage = true -> truthy nowUpdate = true ->
  Healthy (appState ui) ->
  Healthy (appState (deliverReply uuid nowMessage nowUpdate ui)).
Proof.
  intros Hu Hm Hn [Ha Hs]. unfold deliverReply.
  destruct (pendingReply ui) as [[sessionId value]|]; [|now split].
  cbn [appState]. split.
  - now apply activeValid_appendMessage.
  - apply Sound_appendMessage; trivial.
    unfold validMessage, createMessage.
    cbn [msg_id msg_role msg_createdAt msg_content].
    now rewrite Hu, Hm.
Qed.

Lemma deliverReply_healthy_witness :
  Healthy
    (appState
       (deliverReply (lit "a1") (stamp 11) (stamp 11)
          (fst (handleSend sampleDraws (Normal tt)
                  (typing "Hello" blankState) emptyWindow)))).
Proof.
  apply deliverReply_healthy; try reflexivity.
  split; [|split].
  - exists (lit "n1"). split; [reflexivity | now left].
  - reflexivity.
  - vm_compute. repeat constructor. intros [].
Defined.

(** ** The store *)

Lemma getItem_setItem_same (key value : jsstring) (st : Storage) :
  getItem key (setItem key value st) = Some value.
Proof. unfold setItem. cbn [getItem]. now rewrite jseqb_refl. Qed.

Lemma getItem_removeItem_other (key other : jsstring) (st : Storage) :
  other <> key -> getItem other (removeItem key st) = getItem other st.
Proof.
  intros H. unfold removeItem.
  induction st as [|[k v] st IH]; [reflexivity|]. cbn [filter fst getItem].
  destruct (jseqb k key) eqn:E; cbn [negb getItem].
  - apply jseqb_eq in E. subst k.
    destruct (jseqb key other) eqn:E'; [|exact IH].
    apply jseqb_eq in E'. congruence.
  - now rewrite IH.
Qed.

Lemma getItem_removeItem_same (key : jsstring) (st : Storage) :
  getItem key (removeItem key st) = None.
Proof.
  unfold removeItem.
  induction st as [|[k v] st IH]; [reflexivity|]. cbn [filter fst].
  destruct (jseqb k key) eqn:E; cbn [negb getItem]; [exact IH|].
  now rewrite E.
Qed.

Lemma getItem_setItem_other (key other value : jsstring) (st : Storage) :
  other <> key -> getItem other (setItem key value st) = getItem other st.
Proof.
  intros H. unfold setItem. cbn [getItem].
  destruct (jseqb key other) eqn:E.
  - apply jseqb_eq in E. congruence.
  - now apply getItem_removeItem_other.
Qed.

Lemma slot_keys_differ : ACTIVE_SESSION_KEY <> STORAGE_KEY.
Proof. intros H. vm_compute in H. discriminate H. Qed.

(** *** What the sanitizer returns *)

Lemma truthy_orElse (a : option jsstring) (d : jsstring) :
  truthy d = true -> truthy (orElse a d) = true.
Proof.
  intros H. unfold orElse. destruct a as [s|]; [|exact H].
  now destruct (truthy s) eqn:E.
Qed.

Lemma orElse_truthy (s d : jsstring) :
  truthy s = true -> orElse (Some s) d = s.
Proof. intros H. unfold orElse. now rewrite H. Qed.

Lemma filterMap_In {A B} (f : A -> option B) (xs : list A) (y : B) :
  In y (filterMap f xs) <-> exists x, In x xs /\ f x = Some y.
Proof.
  induction xs as [|x xs IH]; cbn [filterMap].
  - split; [intros [] | intros (x & [] & _)].
  - destruct (f x) as [y'|] eqn:E.
    + cbn [In]. rewrite IH. split.
      * intros [Hy|(x' & Hx & Hf)].
        -- exists x. split; [now left | congruence].
        -- exists x'. split; [now right | exact Hf].
      * intros (x' & [Hx|Hx] & Hf).
        -- left. congruence.
        -- right. now exists x'.
    + rewrite IH. split.
      * intros (x' & Hx & Hf). exists x'. split; [now right | exact Hf].
      * intros (x' & [Hx|Hx] & Hf); [congruence | now exists x'].
Qed.

Lemma filterMap_length {A B} (f : A -> option B) (xs : list A) :
  length (filterMap f xs) <= length xs.
Proof.
  induction xs as [|x xs IH]; simpl; [lia|].
  destruct (f x); simpl; lia.
Qed.

Lemma mapM_id_In {A} (cs : list (Completion A)) (out : list A) :
  mapM (fun c => c) cs = Normal out -> cs = map Normal out.
Proof.
  revert out. induction cs as [|c cs IH]; intros out; cbn [mapM].
  - now intros [= <-].
  - destruct c as [a|e]; cbn [bind]; [|discriminate].
    destruct (mapM (fun c => c) cs) as [rest|e]; cbn [bind]; [|discriminate].
    intros [= <-]. cbn [map]. now rewrite (IH rest eq_refl).
Qed.

Lemma sanitizeSessions_In (now : jsstring) (raw : list (option RawSession))
  (out : list ChatSession) (s : ChatSession) :
  sanitizeSessions now raw = Normal out -> In s out ->
  exists r, In r raw /\ sanitizeSession now r = Some (Normal s).
Proof.
  unfold sanitizeSessions. intros H Hs.
  apply mapM_id_In in H. apply filterMap_In.
  rewrite H. now apply in_map.
Qed.

Lemma sanitizeSessions_length (now : jsstring)
  (raw : list (option RawSession)) (out : list ChatSession) :
  sanitizeSessions now raw = Normal out -> length out <= length raw.
Proof.
  unfold sanitizeSessions. intros H. apply mapM_id_In in H.
  rewrite <- (length_map Normal out), <- H. apply filterMap_length.
Qed.

(** X13. Whatever was stored, the sessions [sanitizeSessions] returns
    are not more than the stored entries; each has a non-empty
    identifier, creation time and update time; and each of its
    messages has a non-empty identifier, role and creation time. (The
    current time, which fills the gaps, is not empty.) *)
Theorem sanitizeSessions_output (now : jsstring)
  (raw : list (option RawSession)) (out : list ChatSession) :
  truthy now = true ->
  sanitizeSessions now raw = Normal out ->
  length out <= length raw
  /\ forall s, In s out ->
       truthy (sess_id s) = true
       /\ truthy (sess_createdAt s) = true
       /\ truthy (sess_updatedAt s) = true
       /\ forall m, In m (sess_messages s) ->
            truthy (msg_id m) = true
            /\ truthy (msg_role m) = true
            /\ truthy (msg_createdAt m) = true.
Proof.
  intros Hn H. split; [now apply (@sanitizeSessions_length now raw out)|].
  intros s Hs.
  destruct (@sanitizeSessions_In now raw out s H Hs) as (r & _ & Hr).
  unfold sanitizeSession in Hr. destruct r as [r|]; [|discriminate].
  destruct (raw_id r) as [id|]; [|discriminate].
  destruct (raw_messages r) as [msgs|]; [|discriminate].
  destruct (truthy id) eqn:Eid; [|discriminate].
  injection Hr as Hr.
  destruct (match raw_title r with
            | Some t => if truthy t then Normal t else deriveTitle_raw msgs
            | None => deriveTitle_raw msgs
            end) as [title|e]; cbn [bind] in Hr; [|discriminate].
  injection Hr as <-.
  cbn [sess_id sess_createdAt sess_updatedAt sess_messages].
  split; [exact Eid|]. split; [now apply truthy_orElse|].
  split; [now apply truthy_orElse, truthy_orElse|].
  intros m Hm. apply filterMap_In in Hm as (x & _ & Hx).
  unfold sanitizeMessage in Hx. destruct x as [x|]; [|discriminate].
  destruct (raw_msg_id x) as [mid|]; [|discriminate].
  destruct (raw_msg_role x) as [role|]; [|discriminate].
  destruct (raw_msg_content x) as [content|]; [|discriminate].
  destruct (truthy mid && truthy role) eqn:E; [|discriminate].
  injection Hx as <-. apply andb_true_iff in E as [E1 E2].
  cbn [msg_id msg_role msg_createdAt].
  split; [exact E1|]. split; [exact E2|]. now apply truthy_orElse.
Qed.

Lemma sanitizeSessions_output_witness :
  sanitizeSessions (stamp 9) (rawOneSession [])
  = Normal [createEmptySession (lit "a") (stamp 9)]
  /\ truthy (sess_updatedAt (createEmptySession (lit "a") (stamp 9))) = true.
Proof.
  split; [reflexivity|].
  destruct (@sanitizeSessions_output (stamp 9) (rawOneSession [])
              [createEmptySession (lit "a") (stamp 9)] eq_refl eq_refl)
    as (_ & H).
  destruct (H (createEmptySession (lit "a") (stamp 9))) as (_ & _ & Hu & _);
    [now left | exact Hu].
Defined.

Lemma sanitizeMessages_valid (now : jsstring) (M : list ChatMessage) :
  forallb validMessage M = true ->
  filterMap (sanitizeMessage now) (map raw_of_message M) = M.
Proof.
  induction M as [|m M IH]; [reflexivity|]. cbn [forallb map filterMap].
  intros H. apply andb_true_iff in H as [Hm HM].
  unfold validMessage in Hm.
  apply andb_true_iff in Hm as [Hm _].
  apply andb_true_iff in Hm as [Hm Hc].
  apply andb_true_iff in Hm as [Hi Hr].
  assert (E : sanitizeMessage now (raw_of_message m) = Some m).
  { unfold sanitizeMessage, raw_of_message.
    cbn [raw_msg_id raw_msg_role raw_msg_content raw_msg_createdAt].
    rewrite Hi, Hr, (@orElse_truthy _ now Hc). now destruct m. }
  now rewrite E, (IH HM).
Qed.

Lemma validSession_messages (s : ChatSession) :
  validSession s = true -> forallb validMessage (sess_messages s) = true.
Proof.
  unfold validSession. intros H. now apply andb_true_iff in H as [_ H].
Qed.

Lemma sanitizeSession_valid (now : jsstring) (s : ChatSession) :
  validSession s = true ->
  sanitizeSession now (raw_of_session s) = Some (Normal s).
Proof.
  intros H. pose proof (@validSession_messages s H) as Hm.
  unfold validSession in H.
  apply andb_true_iff in H as [H _].
  apply andb_true_iff in H as [H Hu].
  apply andb_true_iff in H as [H Hc].
  apply andb_true_iff in H as [Hi Ht].
  unfold sanitizeSession, raw_of_session.
  cbn [raw_id raw_title raw_messages raw_createdAt raw_updatedAt].
  rewrite Hi, Ht. cbn [bind].
  rewrite (@sanitizeMessages_valid now _ Hm).
  rewrite (@orElse_truthy _ now Hc), (@orElse_truthy _ _ Hu). now destruct s.
Qed.

Lemma sanitizeSessions_valid (now : jsstring) (S : list ChatSession) :
  forallb validSession S = true ->
  sanitizeSessions now (map raw_of_session S) = Normal S.
Proof.
  unfold sanitizeSessions.
  induction S as [|s S IH]; [reflexivity|]. cbn [forallb map filterMap].
  intros H. apply andb_true_iff in H as [Hs HS].
  rewrite (@sanitizeSession_valid now s Hs). cbn [mapM bind].
  now rewrite (IH HS).
Qed.

(** X14. Sessions as the application makes them (nothing empty among
    identifiers, titles, times and roles, no blank user message) pass
    through [sanitizeSessions] unchanged, whatever the current time:
    loading good data never rewrites it. *)
Theorem sanitizeSessions_keeps_valid (now : jsstring) (S : list ChatSession) :
  forallb validSession S = true ->
  sanitizeSessions now (map raw_of_session S) = Normal S.
Proof. apply sanitizeSessions_valid. Qed.

Lemma sanitizeSessions_keeps_valid_witness :
  sanitizeSessions (stamp 59) (map raw_of_session threeChats)
  = Normal threeChats.
Proof.
  apply sanitizeSessions_keeps_valid. reflexivity.
Defined.

(** *** Saving and loading *)

Lemma forallb_skipn {A} (p : A -> bool) (n : nat) (l : list A) :
  forallb p l = true -> forallb p (skipn n l) = true.
Proof.
  intros H. rewrite <- (firstn_skipn n l), forallb_app in H.
  now apply andb_true_iff in H as [_ H].
Qed.

Lemma validSession_truncateMessages (s : ChatSession) :
  validSession s = true -> validSession (truncateMessages s) = true.
Proof.
  unfold validSession, truncateMessages.
  cbn [sess_id sess_title sess_createdAt sess_updatedAt sess_messages].
  intros H. apply andb_true_iff in H as [H Hm]. rewrite H.
  unfold slice_last. now rewrite forallb_skipn.
Qed.

Lemma valid_ensureCapacity (S : list ChatSession) :
  forallb validSession S = true ->
  forallb validSession (ensureCapacity S) = true.
Proof.
  intros H. unfold ensureCapacity.
  destruct (length S <=? MAX_SESSION_HISTORY); [exact H|].
  unfold slice_last.
  pose proof (forallb_skipn validSession (length S - MAX_SESSION_HISTORY) S H)
    as Hk.
  rewrite forallb_forall in *. intros x Hx.
  apply in_map_iff in Hx as (s & <- & Hs).
  apply validSession_truncateMessages. now apply Hk.
Qed.

Section RoundTrip.

Variable JSON_parse : jsstring -> Completion Parsed.
Variable JSON_stringify : list ChatSession -> jsstring.
Variable outcomes : nat -> Completion unit.

Lemma persistLoop_success (i : nat) :
  forall (payload : list ChatSession) (k0 : nat) (env : Env),
  (forall j, j < i -> quotaFailure (outcomes (k0 + j))) ->
  outcomes (k0 + i) = Normal tt ->
  i < length payload ->
  fst (persistLoop JSON_stringify outcomes k0 payload env)
  = store STORAGE_KEY (JSON_stringify (skipn i payload)) env.
Proof.
  induction i as [|i IH]; intros payload k0 env Hq Hok Hlen;
    destruct payload as [|x rest]; try (cbn in Hlen; lia);
    cbn [persistLoop].
  - rewrite Nat.add_0_r in Hok. now rewrite Hok.
  - destruct (Hq 0 (Nat.lt_0_succ i)) as (e & He & Hquota).
    rewrite Nat.add_0_r in He. rewrite He, Hquota.
    specialize (IH rest (S k0) env).
    destruct (persistLoop JSON_stringify outcomes (S k0) rest env)
      as [env' attempts].
    cbn [fst skipn] in *. apply IH.
    + intros j Hj. replace (S k0 + j) with (k0 + S j) by lia.
      apply Hq. lia.
    + now replace (S k0 + i) with (k0 + S i) by lia.
    + cbn in Hlen. lia.
Qed.

(** X15. Save, then load. If the sessions are valid, the first [i]
    writes fail on quota and the next one succeeds, then what
    [readFromStorage] returns afterwards is the capped collection
    without its first [i] sessions; with no quota failure and at most
    75 sessions it is the collection itself. [JSON.parse] is assumed to
    invert [JSON.stringify] on the payload written, whose text is not
    empty. *)
Theorem persist_then_read (now : jsstring) (S : list ChatSession)
  (env : Env) (i : nat) :
  let payload := skipn i (ensureCapacity S) in
  forallb validSession S = true ->
  (forall j, j < i -> quotaFailure (outcomes j)) ->
  outcomes i = Normal tt ->
  i < length (ensureCapacity S) ->
  JSON_stringify payload <> [] ->
  JSON_parse (JSON_stringify payload)
  = Normal (ParsedArray (map raw_of_session payload)) ->
  fst (readFromStorage JSON_parse now
         (run_env (persistToStorage JSON_stringify outcomes S (Some env))))
  = payload
  /\ (i = 0 -> length S <= MAX_SESSION_HISTORY -> payload = S).
Proof.
  cbv zeta. intros Hv Hq Hok Hlen Hne Hparse. split.
  - unfold persistToStorage.
    pose proof (@persistLoop_success i (ensureCapacity S) 0 env Hq Hok Hlen)
      as Hrun.
    destruct (persistLoop JSON_stringify outcomes 0 (ensureCapacity S) env)
      as [env' attempts].
    cbn [fst run_env] in *. subst env'.
    unfold readFromStorage, store. cbn [localStorage].
    rewrite getItem_setItem_same.
    destruct (JSON_stringify (skipn i (ensureCapacity S))) as [|c text] eqn:E;
      [congruence|].
    cbn [truthy]. rewrite Hparse. cbn [bind sanitizeParsed].
    rewrite sanitizeSessions_valid; [reflexivity|].
    now apply forallb_skipn, valid_ensureCapacity.
  - intros -> Hle. cbn [skipn]. now apply ensureCapacity_within.
Qed.

End RoundTrip.

Lemma persist_then_read_witness :
  fst (readFromStorage parseThreeChats (stamp 59)
         (run_env (persistToStorage stringifyIds (fun _ => Normal tt)
                     threeChats emptyWindow)))
  = skipn 0 (ensureCapacity threeChats)
  /\ skipn 0 (ensureCapacity threeChats) = threeChats.
Proof.
  destruct (@persist_then_read parseThreeChats stringifyIds
              (fun _ => Normal tt) (stamp 59) threeChats
              {| localStorage := []; console := [] |} 0) as (H & H0).
  - reflexivity.
  - intros j Hj. lia.
  - reflexivity.
  - vm_compute. lia.
  - intros H. vm_compute in H. discriminate H.
  - reflexivity.
  - split; [exact H|]. apply H0; [reflexivity | vm_compute; lia].
Defined.

(** *** The two slots *)

Lemma persistLoop_storage (JSON_stringify : list ChatSession -> jsstring)
  (outcomes : nat -> Completion unit) (payload : list ChatSession) :
  forall (k0 : nat) (env : Env),
  let env' := fst (persistLoop JSON_stringify outcomes k0 payload env) in
  localStorage env' = localStorage env
  \/ exists text, localStorage env' = setItem STORAGE_KEY text (localStorage env).
Proof.
  induction payload as [|x rest IH]; intros k0 env; cbn [persistLoop].
  - now left.
  - destruct (outcomes k0) as [u|e].
    + right. now eexists.
    + destruct (isQuotaError e); [|now left].
      specialize (IH (S k0) env). cbv zeta in IH.
      now destruct (persistLoop JSON_stringify outcomes (S k0) rest env).
Qed.

Lemma storedText_writeActiveSession (outcome : Completion unit)
  (sessionId : option jsstring) (window : option Env) :
  storedText (writeActiveSession outcome sessionId window) = storedText window.
Proof.
  unfold writeActiveSession, storedText.
  destruct window as [env|]; [|reflexivity].
  assert (Hr : getItem STORAGE_KEY (removeItem ACTIVE_SESSION_KEY (localStorage env))
               = getItem STORAGE_KEY (localStorage env)).
  { apply getItem_removeItem_other. intros H. now apply slot_keys_differ. }
  destruct sessionId as [id|]; [|exact Hr].
  destruct (truthy id); [|exact Hr].
  destruct outcome as [u|e]; cbn [store warn localStorage]; [|reflexivity].
  apply getItem_setItem_other. intros H. now apply slot_keys_differ.
Qed.

Lemma readActiveSession_persistToStorage
  (JSON_stringify : list ChatSession -> jsstring)
  (outcomes : nat -> Completion unit) (S : list ChatSession)
  (window : option Env) :
  readActiveSession (run_env (persistToStorage JSON_stringify outcomes S window))
  = readActiveSession window.
Proof.
  unfold persistToStorage, readActiveSession.
  destruct window as [env|]; [|reflexivity].
  pose proof (persistLoop_storage JSON_stringify outcomes
                (ensureCapacity S) 0 env) as H. cbv zeta in H.
  destruct (persistLoop JSON_stringify outcomes 0 (ensureCapacity S) env)
    as [env' attempts].
  cbn [fst run_env] in *. destruct H as [->|[text ->]]; [reflexivity|].
  apply getItem_setItem_other, slot_keys_differ.
Qed.

(** X16. The two slots of the store do not disturb each other: saving
    the sessions, whatever the writes do, leaves the stored active
    pointer as it was, and writing or removing the active pointer
    leaves the stored sessions text as it was. *)
Theorem slots_independent (JSON_stringify : list ChatSession -> jsstring)
  (outcomes : nat -> Completion unit) (S : list ChatSession)
  (outcome : Completion unit) (sessionId : option jsstring)
  (window : option Env) :
  readActiveSession (run_env (persistToStorage JSON_stringify outcomes S window))
  = readActiveSession window
  /\ storedText (writeActiveSession outcome sessionId window)
     = storedText window.
Proof.
  split;
    [apply readActiveSession_persistToStorage
    | apply storedText_writeActiveSession].
Qed.

Lemma readActiveSession_written (id : jsstring) (env : Env) :
  truthy id = true ->
  readActiveSession (writeActiveSession (Normal tt) (Some id) (Some env))
  = Some id.
Proof.
  intros H. unfold writeActiveSession, readActiveSession. rewrite H.
  cbn [store localStorage]. apply getItem_setItem_same.
Qed.

(** X17. The active pointer read back. With a store at hand: after a
    successful write of a non-empty identifier, [readActiveSession]
    returns it; after a write of [null] or of the empty identifier it
    returns [null], whatever was stored; after a failed write it
    returns what it returned before. *)
Theorem writeActiveSession_read_back (env : Env) (id : jsstring)
  (outcome : Completion unit) (e : JsError) :
  (truthy id = true ->
     readActiveSession (writeActiveSession (Normal tt) (Some id) (Some env))
     = Some id)
  /\ readActiveSession (writeActiveSession outcome None (Some env)) = None
  /\ readActiveSession (writeActiveSession outcome (Some []) (Some env)) = None
  /\ (truthy id = true ->
        readActiveSession (writeActiveSession (Thrown e) (Some id) (Some env))
        = readActiveSession (Some env)).
Proof.
  split; [apply readActiveSession_written|].
  unfold writeActiveSession, readActiveSession. cbn [truthy localStorage].
  split; [apply getItem_removeItem_same|].
  split; [apply getItem_removeItem_same|].
  intros H. now rewrite H.
Qed.

Lemma writeActiveSession_read_back_witness :
  readActiveSession
    (writeActiveSession (Normal tt) (Some (lit "s01"))
       (writeActiveSession (Normal tt) (Some (lit "s02")) emptyWindow))
  = Some (lit "s01")
  /\ readActiveSession
       (writeActiveSession quotaExceeded (Some (lit "s01"))
          (writeActiveSession (Normal tt) (Some (lit "s02")) emptyWindow))
     = Some (lit "s02").
Proof.
  split.
  - destruct (writeActiveSession_read_back
                (store ACTIVE_SESSION_KEY (lit "s02")
                   {| localStorage := []; console := [] |})
                (lit "s01") (Normal tt) TypeError) as (H & _).
    exact (H eq_refl).
  - destruct (writeActiveSession_read_back
                (store ACTIVE_SESSION_KEY (lit "s02")
                   {| localStorage := []; console := [] |})
                (lit "s01") (Normal tt)
                (DOMException (lit "QuotaExceededError"))) as (_ & _ & _ & H).
    exact (H eq_refl).
Defined.

(** *** Reading never writes *)

Lemma readFromStorage_storage (JSON_parse : jsstring -> Completion Parsed)
  (now : jsstring) (window : option Env) :
  option_map localStorage (snd (readFromStorage JSON_parse now window))
  = option_map localStorage window.
Proof.
  unfold readFromStorage. destruct window as [env|]; [|reflexivity].
  destruct (getItem STORAGE_KEY (localStorage env)) as [raw|]; [|reflexivity].
  destruct (truthy raw); [|reflexivity].
  now destruct (bind _ _).
Qed.

Lemma readActiveSession_storage (w w' : option Env) :
  option_map localStorage w = option_map localStorage w' ->
  readActiveSession w = readActiveSession w'.
Proof.
  unfold readActiveSession.
  destruct w as [e|], w' as [e'|]; cbn; try discriminate; [|reflexivity].
  now intros [= ->].
Qed.

(** X18. The listener of storage events never writes to the store. It
    ignores an event of another storage area, and an event for a key
    other than the two slots, leaving the state as it is. On an event
    for the sessions slot it replaces the collection by what
    [readFromStorage] returns, even when that is empty, and keeps the
    active pointer without checking it. *)
Theorem handleStorageEvent_spec (JSON_parse : jsstring -> Completion Parsed)
  (now : jsstring) (event : StorageEvent) (st : AppState)
  (window : option Env) :
  let result := handleStorageEvent JSON_parse now event st window in
  option_map localStorage (snd result) = option_map localStorage window
  /\ (event_isLocal event = false -> fst result = st)
  /\ (keyIs (event_key event) STORAGE_KEY = false ->
      keyIs (event_key event) ACTIVE_SESSION_KEY = false ->
      fst result = st)
  /\ (event_isLocal event = true ->
      keyIs (event_key event) STORAGE_KEY = true ->
      sessions (fst result) = fst (readFromStorage JSON_parse now window)
      /\ activeSessionId (fst result) = activeSessionId st).
Proof.
  cbv zeta. unfold handleStorageEvent.
  pose proof (readFromStorage_storage JSON_parse now window) as Hr.
  destruct (event_isLocal event); cbn [negb];
    [|repeat split; intros; try discriminate; reflexivity].
  destruct (keyIs (event_key event) STORAGE_KEY) eqn:Ek.
  - assert (Ea : keyIs (event_key event) ACTIVE_SESSION_KEY = false).
    { unfold keyIs in *. destruct (event_key event) as [k|]; [|reflexivity].
      apply jseqb_eq in Ek. subst k. apply jseqb_neq.
      intros H. now apply slot_keys_differ. }
    destruct (readFromStorage JSON_parse now window) as [l w].
    rewrite Ea. cbn [fst snd] in *.
    repeat split; trivial; discriminate.
  - destruct (keyIs (event_key event) ACTIVE_SESSION_KEY).
    + destruct (readActiveSession window) as [id|];
        [destruct (truthy id)|]; cbn [fst snd];
        repeat split; trivial; discriminate.
    + cbn [fst snd]. repeat split; trivial; discriminate.
Qed.

Lemma handleStorageEvent_spec_witness :
  fst (handleStorageEvent parseSample (stamp 9)
         {| event_isLocal := false; event_key := Some STORAGE_KEY |}
         (threeChatsActive "s01") (windowWith (lit "oops")))
  = threeChatsActive "s01"
  /\ sessions
       (fst (handleStorageEvent parseSample (stamp 9)
               {| event_isLocal := true; event_key := Some STORAGE_KEY |}
               (threeChatsActive "s01") (windowWith (lit "oops"))))
     = [].
Proof.
  split.
  - destruct (handleStorageEvent_spec parseSample (stamp 9)
                {| event_isLocal := false; event_key := Some STORAGE_KEY |}
                (threeChatsActive "s01") (windowWith (lit "oops")))
      as (_ & H & _).
    now apply H.
  - destruct (handleStorageEvent_spec parseSample (stamp 9)
                {| event_isLocal := true; event_key := Some STORAGE_KEY |}
                (threeChatsActive "s01") (windowWith (lit "oops")))
      as (_ & _ & _ & H).
    destruct H as [H _]; [reflexivity | reflexivity |].
    rewrite H. reflexivity.
Defined.

(** ** Capacity, by position *)

Lemma map_skipn {A B} (f : A -> B) (n : nat) (l : list A) :
  map f (skipn n l) = skipn n (map f l).
Proof.
  revert l. induction n as [|n IH]; intros [|x l]; cbn; auto.
Qed.

Lemma skipn_suffix {A} (n : nat) (l : list A) :
  exists dropped, l = dropped ++ skipn n l.
Proof. exists (firstn n l). symmetry. apply firstn_skipn. Qed.

(** X19. [ensureCapacity] neither invents nor reorders: it returns
    [min 75 n] sessions, whose identifiers are the last ones of the
    input, in the same order; every returned session has the
    identifier and title of a session of the input, and its messages
    are the last ones of that session; when the input is over capacity
    no returned session has more than 200 messages. *)
Theorem ensureCapacity_keeps_tail (S : list ChatSession) :
  length (ensureCapacity S) = Nat.min MAX_SESSION_HISTORY (length S)
  /\ map sess_id (ensureCapacity S)
     = slice_last MAX_SESSION_HISTORY (map sess_id S)
  /\ (forall s, In s (ensureCapacity S) ->
        exists o dropped,
          In o S /\ sess_id s = sess_id o /\ sess_title s = sess_title o
          /\ sess_messages o = dropped ++ sess_messages s)
  /\ (MAX_SESSION_HISTORY < length S ->
      forall s, In s (ensureCapacity S) -> length (sess_messages s) <= 200).
Proof.
  unfold ensureCapacity.
  destruct (length S <=? MAX_SESSION_HISTORY) eqn:E.
  - apply Nat.leb_le in E. split; [lia|]. split.
    { rewrite slice_last_short; [reflexivity | now rewrite length_map]. }
    split; [|lia].
    intros s Hs. exists s, []. now repeat split.
  - apply Nat.leb_gt in E. split.
    { rewrite length_map, slice_last_length. lia. }
    split.
    { unfold slice_last. rewrite map_map, length_map, <- map_skipn.
      apply map_ext. reflexivity. }
    split.
    + intros s Hs. apply in_map_iff in Hs as (o & <- & Ho).
      destruct (skipn_suffix (length (sess_messages o) - 200) (sess_messages o))
        as [dropped Hd].
      exists o, dropped. repeat split; trivial.
      unfold slice_last in Ho.
      rewrite <- (firstn_skipn (length S - MAX_SESSION_HISTORY) S).
      apply in_or_app. now right.
    + intros _ s Hs. apply in_map_iff in Hs as (o & <- & Ho).
      cbn [truncateMessages sess_messages]. rewrite slice_last_length. lia.
Qed.

Lemma ensureCapacity_keeps_tail_witness :
  length (ensureCapacity sessions76) = 75
  /\ Forall (fun s => length (sess_messages s) <= 200)
       (ensureCapacity sessions76).
Proof.
  destruct (ensureCapacity_keeps_tail sessions76) as (Hl & _ & _ & Hm).
  split; [rewrite Hl; reflexivity|].
  apply Forall_forall. apply Hm. vm_compute. lia.
Defined.

(** ** Start-up *)

Lemma sanitizeSessions_id_truthy (now : jsstring)
  (raw : list (option RawSession)) (out : list ChatSession) (s : ChatSession) :
  sanitizeSessions now raw = Normal out -> In s out ->
  truthy (sess_id s) = true.
Proof.
  intros H Hs.
  destruct (@sanitizeSessions_In now raw out s H Hs) as (r & _ & Hr).
  unfold sanitizeSession in Hr. destruct r as [r|]; [|discriminate].
  destruct (raw_id r) as [id|]; [|discriminate].
  destruct (raw_messages r) as [msgs|]; [|discriminate].
  destruct (truthy id) eqn:Eid; [|discriminate].
  injection Hr as Hr.
  destruct (match raw_title r with
            | Some t => if truthy t then Normal t else deriveTitle_raw msgs
            | None => deriveTitle_raw msgs
            end) as [title|e]; cbn [bind] in Hr; [|discriminate].
  now injection Hr as <-.
Qed.

Lemma readFromStorage_id_truthy (JSON_parse : jsstring -> Completion Parsed)
  (now : jsstring) (window : option Env) (s : ChatSession) :
  In s (fst (readFromStorage JSON_parse now window)) ->
  truthy (sess_id s) = true.
Proof.
  unfold readFromStorage. destruct window as [env|]; [|intros []].
  destruct (getItem STORAGE_KEY (localStorage env)) as [raw|]; [|intros []].
  destruct (truthy raw); [|intros []].
  destruct (JSON_parse raw) as [[entries|]|e]; cbn [bind sanitizeParsed];
    try (intros []).
  destruct (sanitizeSessions now entries) as [out|e] eqn:E; [|intros []].
  cbn [fst]. now apply (@sanitizeSessions_id_truthy now entries out s).
Qed.

Lemma existsb_id (id : jsstring) (l : list ChatSession) :
  existsb (fun session => jseqb (sess_id session) id) l = true
  <-> In id (map sess_id l).
Proof.
  rewrite existsb_exists, in_map_iff. split.
  - intros (s & Hs & E). apply jseqb_eq in E. now exists s.
  - intros (s & E & Hs). exists s. split; [exact Hs | now apply jseqb_eq].
Qed.

Lemma insertBy_perm (cmp : ChatSession -> ChatSession -> Z) (x : ChatSession)
  (l : list ChatSession) : Permutation (insertBy cmp x l) (x :: l).
Proof.
  induction l as [|y l IH]; cbn [insertBy]; [reflexivity|].
  destruct (cmp x y <? 0)%Z; [reflexivity|].
  rewrite IH. apply perm_swap.
Qed.

Lemma insertionSort_perm (cmp : ChatSession -> ChatSession -> Z)
  (l : list ChatSession) : Permutation (insertionSort cmp l) l.
Proof.
  unfold insertionSort. induction l as [|x l IH]; cbn [fold_right];
    [reflexivity|].
  rewrite insertBy_perm. now constructor.
Qed.

Section StartUp.

Variable JSON_parse : jsstring -> Completion Parsed.
Variable sortCopy :
  (ChatSession -> ChatSession -> Z) -> list ChatSession -> list ChatSession.
(** Sorting rearranges the elements, whatever the comparator. *)
Hypothesis sortCopy_perm :
  forall cmp l, Permutation (sortCopy cmp l) l.

Lemma initialiseSessions_shape (uuid nowSession now : jsstring)
  (outcome : Completion unit) (st : AppState) (window : option Env) :
  let stored := fst (readFromStorage JSON_parse now window) in
  let st' :=
    fst (initialiseSessions JSON_parse sortCopy uuid nowSession now
           outcome st window) in
  activeValid st'
  /\ sessions st' <> []
  /\ (stored = [] -> sessions st' = [createEmptySession uuid nowSession])
  /\ (stored <> [] -> sessions st' = stored)
  /\ (forall id,
        readActiveSession window = Some id -> In id (map sess_id stored) ->
        activeSessionId st' = Some id).
Proof.
  cbv zeta. unfold initialiseSessions.
  pose proof (readFromStorage_storage JSON_parse now window) as Hw.
  pose proof (@readFromStorage_id_truthy JSON_parse now window) as Hid.
  destruct (readFromStorage JSON_parse now window) as [stored window1].
  cbn [fst snd] in *.
  rewrite (readActiveSession_storage window1 window Hw).
  destruct stored as [|first rest].
  - cbn [fst]. split.
    { exists uuid. split; [reflexivity | now left]. }
    split; [discriminate|]. split; [reflexivity|].
    split; [congruence|]. intros id _ [].
  - assert (Hfallback :
      exists latestId,
        match sortCopy byUpdatedDesc (first :: rest) with
        | latestSession :: _ => sess_id latestSession
        | [] => sess_id first
        end = latestId /\ In latestId (map sess_id (first :: rest))).
    { eexists. split; [reflexivity|].
      pose proof (sortCopy_perm byUpdatedDesc (first :: rest)) as Hp.
      destruct (sortCopy byUpdatedDesc (first :: rest)) as [|latest l].
      - now left.
      - apply in_map. apply (Permutation_in _ Hp). now left. }
    destruct Hfallback as (latestId & -> & Hlatest).
    destruct (readActiveSession window) as [storedActiveId|].
    + destruct (existsb _ (first :: rest)) eqn:Ee.
      * apply existsb_id in Ee.
        assert (Ht : truthy storedActiveId = true).
        { apply in_map_iff in Ee as (s & <- & Hs). now apply Hid. }
        rewrite Ht. cbn [andb fst].
        split; [now exists storedActiveId|].
        split; [discriminate|]. split; [discriminate|].
        split; [reflexivity|]. now intros id [= <-] _.
      * rewrite andb_false_r. cbn [fst].
        split; [now exists latestId|].
        split; [discriminate|]. split; [discriminate|].
        split; [reflexivity|]. intros id [= <-] Hin.
        apply existsb_id in Hin. congruence.
    + cbn [fst]. split; [now exists latestId|].
      split; [discriminate|]. split; [discriminate|].
      split; [reflexivity|]. discriminate.
Qed.


(** X20. After [initialiseSessions], whatever the store holds, the
    collection is not empty and the active pointer names one of its
    sessions. An unreadable or empty store gives one fresh session;
    otherwise the collection is what [readFromStorage] returns, and a
    stored active pointer that names one of these sessions is kept. *)
Theorem initialiseSessions_spec (uuid nowSession now : jsstring)
  (outcome : Completion unit) (st : AppState) (window : option Env) :
  let stored := fst (readFromStorage JSON_parse now window) in
  let st' :=
    fst (initialiseSessions JSON_parse sortCopy uuid nowSession now
           outcome st window) in
  activeValid st'
  /\ sessions st' <> []
  /\ (stored = [] -> sessions st' = [createEmptySession uuid nowSession])
  /\ (stored <> [] -> sessions st' = stored)
  /\ (forall id,
        readActiveSession window = Some id -> In id (map sess_id stored) ->
        activeSessionId st' = Some id).
Proof. apply initialiseSessions_shape. Qed.

Lemma readFromStorage_stored (now : jsstring) (w w' : option Env) :
  storedText w = storedText w' ->
  fst (readFromStorage JSON_parse now w) = fst (readFromStorage JSON_parse now w').
Proof.
  unfold storedText, readFromStorage.
  destruct w as [e|], w' as [e'|]; intros H.
  - rewrite H. destruct (getItem STORAGE_KEY (localStorage e')) as [raw|];
      [|reflexivity].
    destruct (truthy raw); [|reflexivity]. now destruct (bind _ _).
  - rewrite H. reflexivity.
  - rewrite <- H. reflexivity.
  - reflexivity.
Qed.

(** X25. A selection survives a reload: after [selectSession id] with a
    store at hand and a successful write, a later
    [initialiseSessions] makes [id] active again, provided the stored
    sessions include a session with that identifier. *)
Theorem selection_survives_reload (uuid nowSession now id : jsstring)
  (outcome : Completion unit) (st st0 : AppState) (env : Env) :
  truthy id = true ->
  In id (map sess_id (fst (readFromStorage JSON_parse now (Some env)))) ->
  let selected := selectSession (Normal tt) id st (Some env) in
  activeSessionId (fst selected) = Some id
  /\ sessions (fst selected) = sessions st
  /\ activeSessionId
       (fst (initialiseSessions JSON_parse sortCopy uuid nowSession now
               outcome st0 (snd selected)))
     = Some id.
Proof.
  intros Ht Hin. cbv zeta. unfold selectSession. cbn [fst snd].
  split; [reflexivity|]. split; [reflexivity|].
  apply initialiseSessions_shape.
  - now apply readActiveSession_written.
  - rewrite (readFromStorage_stored now
               (writeActiveSession (Normal tt) (Some id) (Some env)) (Some env));
      [exact Hin | apply storedText_writeActiveSession].
Qed.

End StartUp.

Lemma initialiseSessions_spec_witness :
  activeValid
    (fst (initialiseSessions parseThreeChats insertionSort (lit "n1")
            (stamp 20) (stamp 20) (Normal tt) blankState
            (windowWith (stringifyIds threeChats))))
  /\ activeSessionId
       (fst (initialiseSessions parseThreeChats insertionSort (lit "n1")
               (stamp 20) (stamp 20) (Normal tt) blankState
               (Some {| localStorage :=
                          [(STORAGE_KEY, stringifyIds threeChats);
                           (ACTIVE_SESSION_KEY, lit "s00")];
                        console := [] |})))
     = Some (lit "s00")
  /\ sessions
       (fst (initialiseSessions parseThreeChats insertionSort (lit "n1")
               (stamp 20) (stamp 20) (Normal tt) blankState
               (windowWith (lit "oops"))))
     = [createEmptySession (lit "n1") (stamp 20)].
Proof.
  pose proof (@initialiseSessions_spec parseThreeChats insertionSort
                insertionSort_perm (lit "n1") (stamp 20) (stamp 20)
                (Normal tt) blankState) as H.
  split; [apply H|]. split.
  - destruct (H (Some {| localStorage :=
                           [(STORAGE_KEY, stringifyIds threeChats);
                            (ACTIVE_SESSION_KEY, lit "s00")];
                         console := [] |})) as (_ & _ & _ & _ & Ha).
    apply Ha; [reflexivity|]. right. right. now left.
  - destruct (H (windowWith (lit "oops"))) as (_ & _ & He & _).
    now apply He.
Defined.

Lemma selection_survives_reload_witness :
  activeSessionId
    (fst (initialiseSessions parseThreeChats insertionSort (lit "n1")
            (stamp 20) (stamp 20) (Normal tt) blankState
            (snd (selectSession (Normal tt) (lit "s01") (threeChatsActive "s02")
                    (windowWith (stringifyIds threeChats))))))
  = Some (lit "s01").
Proof.
  destruct (@selection_survives_reload parseThreeChats insertionSort
              insertionSort_perm (lit "n1") (stamp 20) (stamp 20) (lit "s01")
              (Normal tt) (threeChatsActive "s02") blankState
              {| localStorage := [(STORAGE_KEY, stringifyIds threeChats)];
                 console := [] |}) as (_ & _ & H).
  - reflexivity.
  - right. now left.
  - exact H.
Defined.

(** ** More on the search *)

Lemma substring_refl (s : jsstring) : substring s s.
Proof. exists [], []. now rewrite app_nil_r. Qed.

Lemma substring_trans (a b c : jsstring) :
  substring a b -> substring b c -> substring a c.
Proof.
  intros (p & q & ->) (p' & q' & ->).
  exists (p' ++ p), (q ++ q'). now rewrite <- !app_assoc.
Qed.

Section SearchMore.

Variable toLowerCase : jsstring -> jsstring.

Lemma filteredSessions_In (term : jsstring) (st : AppState)
  (session : ChatSession) :
  In session (filteredSessions toLowerCase (handleSearchChange term st))
  <-> In session (sessions st)
      /\ (blank term \/ matchesTerm toLowerCase term session).
Proof.
  unfold filteredSessions, handleSearchChange. cbn [searchTerm sessions].
  destruct (truthy (trim term)) eqn:E; cbn [negb].
  - rewrite filter_In, matchesNeedle_spec. split; [tauto|].
    intros [Hs [Hb|Hm]]; [|tauto].
    apply trim_blank in Hb. congruence.
  - apply trim_blank in E. tauto.
Qed.

(** X21. Typing more never widens the result: when the lowercased term
    [short] occurs in the lowercased term [long], and [long] is not
    blank, every session found for [long] is found for [short]. And
    every session found is a session of the collection. *)
Theorem filteredSessions_narrows (st : AppState) (short long : jsstring)
  (session : ChatSession) :
  ~ blank long ->
  substring (toLowerCase short) (toLowerCase long) ->
  In session (filteredSessions toLowerCase (handleSearchChange long st)) ->
  In session (filteredSessions toLowerCase (handleSearchChange short st))
  /\ In session (sessions st).
Proof.
  intros Hb Hsub Hin. apply filteredSessions_In in Hin as [Hs [Hl|Hm]];
    [contradiction|].
  split; [|exact Hs]. apply filteredSessions_In. split; [exact Hs|].
  right. destruct Hm as [Ht|(m & Hm & Hc)].
  - left. now apply (substring_trans Hsub).
  - right. exists m. split; [exact Hm|]. now apply (substring_trans Hsub).
Qed.

(** X22. A session of the collection is always found by its own title,
    and by the content of any of its messages, typed in any way that
    lowercases to the same text. *)
Theorem filteredSessions_finds_own_text (st : AppState) (session : ChatSession)
  (term : jsstring) :
  In session (sessions st) ->
  toLowerCase term = toLowerCase (sess_title session)
  \/ (exists message, In message (sess_messages session)
                      /\ toLowerCase term = toLowerCase (msg_content message)) ->
  In session (filteredSessions toLowerCase (handleSearchChange term st)).
Proof.
  intros Hs H. apply filteredSessions_In. split; [exact Hs|]. right.
  destruct H as [E|(m & Hm & E)].
  - left. rewrite E. apply substring_refl.
  - right. exists m. split; [exact Hm|]. rewrite E. apply substring_refl.
Qed.

End SearchMore.

Lemma filteredSessions_narrows_witness :
  In (nth 0 threeChats (createEmptySession [] []))
    (filteredSessions lowerAscii (handleSearchChange (lit "WOR") (searching []))).
Proof.
  apply (@filteredSessions_narrows lowerAscii (searching [])
           (lit "WOR") (lit "Hello World")).
  - intros H. apply trim_blank in H. discriminate H.
  - exists (lit "hello "), (lit "ld"). reflexivity.
  - vm_compute. now left.
Defined.

Lemma filteredSessions_finds_own_text_witness :
  In (nth 0 threeChats (createEmptySession [] []))
    (filteredSessions lowerAscii
       (handleSearchChange (lit "HELLO WORLD") (searching []))).
Proof.
  apply (@filteredSessions_finds_own_text lowerAscii (searching [])).
  - now left.
  - left. reflexivity.
Defined.

(** ** New chat, then delete *)

Lemma others_all (sessionId : jsstring) (l : list ChatSession) :
  ~ In sessionId (map sess_id l) -> others sessionId l = l.
Proof.
  unfold others. induction l as [|s l IH]; [reflexivity|].
  cbn [map In filter]. intros H.
  destruct (jseqb (sess_id s) sessionId) eqn:E.
  - apply jseqb_eq in E. tauto.
  - cbn [negb]. rewrite IH; tauto.
Qed.

(** X23. Deleting a chat right after creating it gives back the
    collection as it was before (when it was not empty and the
    identifier was new). The active pointer does not return to the
    session that was active before: it goes to the first session of the
    collection. *)
Theorem newChat_then_delete (uuid now uuid' now' : jsstring)
  (outcome outcome' : Completion unit) (st : AppState) (window : option Env) :
  ~ In uuid (idsOf st) ->
  sessions st <> [] ->
  let created := handleNewChat uuid now outcome st window in
  let st' :=
    fst (handleDeleteSession uuid' now' outcome' uuid (fst created)
           (snd created)) in
  sessions st' = sessions st
  /\ activeSessionId st' = option_map sess_id (hd_error (sessions st)).
Proof.
  intros Hf Hne. cbv zeta. unfold handleNewChat, handleDeleteSession.
  cbn [fst snd sessions activeSessionId createEmptySession sess_id filter].
  rewrite jseqb_refl. cbn [negb].
  fold (others uuid (sessions st)). rewrite (others_all uuid _ Hf).
  destruct (sessions st) as [|first rest]; [congruence|].
  now split.
Qed.

Lemma newChat_then_delete_witness :
  (let created :=
     handleNewChat (lit "s03") (stamp 3) (Normal tt)
       (threeChatsActive "s00") emptyWindow in
   let st' :=
     fst (handleDeleteSession (lit "u1") (stamp 4) (Normal tt) (lit "s03")
            (fst created) (snd created)) in
   sessions st' = threeChats /\ activeSessionId st' = Some (lit "s02")).
Proof.
  apply (@newChat_then_delete (lit "s03") (stamp 3) (lit "u1") (stamp 4)
           (Normal tt) (Normal tt) (threeChatsActive "s00") emptyWindow).
  - intros H. vm_compute in H.
    repeat (destruct H as [H|H]; [discriminate H|]). exact H.
  - discriminate.
Defined.

(** ** Relative time stamps *)

Lemma roundDiv_bounds (p q : Z) :
  (0 < q)%Z ->
  (2 * q * roundDiv p q <= 2 * p + q < 2 * q * roundDiv p q + 2 * q)%Z.
Proof.
  intros Hq. unfold roundDiv.
  pose proof (Z.div_mod (2 * p + q) (2 * q)) as Hd.
  pose proof (Z.mod_pos_bound (2 * p + q) (2 * q)) as Hm.
  lia.
Qed.

Section TimestampProps.

Variable getTime : jsstring -> option Z.
Variable formatMonthDay : Z -> jsstring.

(** X24. The label of [formatRelativeTimestamp] by age (the current
    time minus the time of the stamp, in milliseconds). Under 30
    seconds, and for a stamp in the future: "Just now". Then minutes,
    from 1 to 59, up to 59.5 minutes; hours, from 1 to 23, up to 23
    hours 29.5 minutes; days, from 1 to 6, up to 155 hours 29.5
    minutes; beyond, the month and day. A count of zero is never
    shown and the plural "s" appears exactly for counts above one. *)
Theorem formatRelativeTimestamp_buckets (now : Z) (iso : jsstring) (t : Z) :
  getTime iso = Some t ->
  let age := (now - t)%Z in
  let label := formatRelativeTimestamp getTime formatMonthDay now iso in
  ((age < 30000)%Z -> label = Normal (lit "Just now"))
  /\ ((30000 <= age < 3570000)%Z ->
      exists m, (1 <= m <= 59)%Z
                /\ label = Normal (numberToString m ++ lit " min ago"))
  /\ ((3570000 <= age < 84570000)%Z ->
      exists h, (1 <= h <= 23)%Z
                /\ label = Normal (numberToString h ++ lit " hr"
                                   ++ (if (1 <? h)%Z then lit "s" else [])
                                   ++ lit " ago"))
  /\ ((84570000 <= age < 559770000)%Z ->
      exists d, (1 <= d <= 6)%Z
                /\ label = Normal (numberToString d ++ lit " day"
                                   ++ (if (1 <? d)%Z then lit "s" else [])
                                   ++ lit " ago"))
  /\ ((559770000 <= age)%Z -> label = Normal (formatMonthDay t)).
Proof.
  intros Ht. cbv zeta. unfold formatRelativeTimestamp. rewrite Ht.
  set (age := (now - t)%Z).
  set (minutes := roundDiv age 60000).
  set (hours := roundDiv minutes 60).
  set (days := roundDiv hours 24).
  pose proof (@roundDiv_bounds age 60000%Z eq_refl) as Hm.
  pose proof (@roundDiv_bounds minutes 60%Z eq_refl) as Hh.
  pose proof (@roundDiv_bounds hours 24%Z eq_refl) as Hd.
  fold minutes in Hm. fold hours in Hh. fold days in Hd.
  destruct (minutes <? 1)%Z eqn:E1;
    [apply Z.ltb_lt in E1 | apply Z.ltb_ge in E1].
  { repeat split; intros; try lia; reflexivity. }
  destruct (minutes <? 60)%Z eqn:E2;
    [apply Z.ltb_lt in E2 | apply Z.ltb_ge in E2].
  { repeat split; intros; try lia. exists minutes. split; [lia | reflexivity]. }
  destruct (hours <? 24)%Z eqn:E3;
    [apply Z.ltb_lt in E3 | apply Z.ltb_ge in E3].
  { repeat split; intros; try lia. exists hours. split; [lia | reflexivity]. }
  destruct (days <? 7)%Z eqn:E4;
    [apply Z.ltb_lt in E4 | apply Z.ltb_ge in E4].
  { repeat split; intros; try lia. exists days. split; [lia | reflexivity]. }
  repeat split; intros; try lia; reflexivity.
Qed.

(** An invalid date makes [formatRelativeTimestamp] raise. *)
Lemma formatRelativeTimestamp_invalid (now : Z) (iso : jsstring) :
  getTime iso = None ->
  formatRelativeTimestamp getTime formatMonthDay now iso = Thrown OtherError.
Proof. intros H. unfold formatRelativeTimestamp. now rewrite H. Qed.

End TimestampProps.

Lemma formatRelativeTimestamp_buckets_witness :
  formatRelativeTimestamp getTimeSample (fun _ => lit "Jan 1") 29999%Z (stamp 0)
  = Normal (lit "Just now")
  /\ formatRelativeTimestamp getTimeSample (fun _ => lit "Jan 1") 30000%Z (stamp 1)
     = Normal (lit "Just now")
  /\ formatRelativeTimestamp getTimeSample (fun _ => lit "Jan 1") 5400000%Z (stamp 0)
     = Normal (lit "2 hrs ago")
  /\ formatRelativeTimestamp getTimeSample (fun _ => lit "Jan 1") 84570000%Z (stamp 0)
     = Normal (lit "1 day ago")
  /\ formatRelativeTimestamp getTimeSample (fun _ => lit "Jan 1") 559770000%Z (stamp 0)
     = Normal (lit "Jan 1").
Proof.
  pose proof (fun now iso t => @formatRelativeTimestamp_buckets getTimeSample
                (fun _ => lit "Jan 1") now iso t) as H.
  split.
  { destruct (H 29999%Z (stamp 0) 0%Z eq_refl) as (H1 & _). apply H1. lia. }
  split.
  { destruct (H 30000%Z (stamp 1) 60000%Z eq_refl) as (H1 & _). apply H1. lia. }
  split.
  { destruct (H 5400000%Z (stamp 0) 0%Z eq_refl) as (_ & _ & H3 & _).
    destruct H3 as (h & _ & E); [lia|]. vm_compute. reflexivity. }
  split.
  { destruct (H 84570000%Z (stamp 0) 0%Z eq_refl) as (_ & _ & _ & H4 & _).
    destruct H4 as (d & _ & E); [lia|]. vm_compute. reflexivity. }
  destruct (H 559770000%Z (stamp 0) 0%Z eq_refl) as (_ & _ & _ & _ & H5).
  apply H5. lia.
Defined.
